(** * Inceptia AI chat client: a shallow embedding of [src/App.js]

    The development follows the React component [App]: its state
    ([messages], [inputValue], [isLoading]), the asynchronous handler
    [handleSendMessage] split at its single [await], and the rendering of the
    sources of a bot message.

    Conventions.
    - A JavaScript string is the list of its UTF-16 code units ([jsstring]).
    - A JavaScript number is a binary64 value ([number]): a rational that
      the format represents, an infinity, or NaN.  A number of a JSON text is
      the rational its decimal literal denotes; parsing and every arithmetic
      operation round to the nearest binary64 value, ties to even
      ([round64]).  The sign of zero is not kept: nothing here divides, and
      [||], [-], [*] and [toFixed] do not tell the two zeros apart.
    - A property that may be missing from a JSON object is a [field]. *)

From Stdlib Require Import List Bool ZArith NArith QArith Qround Qabs.
From Stdlib Require Import String Ascii DecimalString Sorted Lia Lqa.
Import ListNotations.

Set Implicit Arguments.

(** ** JavaScript values *)

Definition jsstring := list N.

Definition js (s : string) : jsstring :=
  List.map N_of_ascii (list_ascii_of_string s).

Definition jsstring_eqb (a b : jsstring) : bool :=
  if list_eq_dec N.eq_dec a b then true else false.

(** A property of an object received from JSON: missing, [null], or a value. *)
Inductive field (A : Type) : Type :=
| Undefined
| Null
| Val (a : A).
Arguments Undefined {A}.
Arguments Null {A}.

(** ** [String.prototype.trim] *)

(** WhiteSpace and LineTerminator code points of ECMAScript. *)
Definition is_white_space (c : N) : bool :=
  ((c =? 9) || (c =? 10) || (c =? 11) || (c =? 12) || (c =? 13) || (c =? 32)
   || (c =? 160) || (c =? 5760) || ((8192 <=? c) && (c <=? 8202))
   || (c =? 8232) || (c =? 8233) || (c =? 8239) || (c =? 8287)
   || (c =? 12288) || (c =? 65279))%N.

Fixpoint trimStart (s : jsstring) : jsstring :=
  match s with
  | [] => []
  | c :: r => if is_white_space c then trimStart r else s
  end.

Definition trimEnd (s : jsstring) : jsstring := rev (trimStart (rev s)).

Definition trim (s : jsstring) : jsstring := trimEnd (trimStart s).

(** Truthiness of a string: the empty string is the only falsy one. *)
Definition truthy_string (s : jsstring) : bool :=
  match s with [] => false | _ => true end.

(** ** Data model of the component *)

(** One entry of [data.sources], with the properties the component reads.
    [distance] holds the number as the JSON text writes it. *)
Record Source : Type := mkSource {
  distance : field Q;
  title : field jsstring;
  url : field jsstring;
  filename : field jsstring
}.

Inductive Sender : Type := user | bot.

(** An element of the [messages] state.  [sources] is [None] for the objects
    built without that property ([userMessage], [errorMessage]). *)
Record Message : Type := mkMessage {
  id : Z;
  text : field jsstring;
  sender : Sender;
  timestamp : Z;
  sources : option (list Source)
}.

Record AppState : Type := mkState {
  messages : list Message;
  inputValue : jsstring;
  isLoading : bool
}.

(** ** Numbers *)

Inductive number : Type :=
| Num (q : Q)
| PosInfinity
| NegInfinity
| NaN.

(** The integer nearest to [r], the even one on a tie. *)
Definition round_half_even (r : Q) : Z :=
  let f := Qfloor r in
  match Qcompare (r - inject_Z f) (1 # 2) with
  | Lt => f
  | Gt => (f + 1)%Z
  | Eq => if Z.even f then f else (f + 1)%Z
  end.

(** [2 ^ e <= x], for a positive [x]. *)
Definition pow2_le (e : Z) (x : Q) : bool :=
  if (0 <=? e)%Z
  then (2 ^ e * Zpos (Qden x) <=? Qnum x)%Z
  else (Zpos (Qden x) <=? Qnum x * 2 ^ (- e))%Z.

(** The binary exponent of a positive [x]: [2 ^ e <= x < 2 ^ (e + 1)]. *)
Definition ilog2 (x : Q) : Z :=
  let e0 := (Z.log2 (Qnum x) - Z.log2 (Zpos (Qden x)))%Z in
  if pow2_le e0 x then e0 else (e0 - 1)%Z.

(** Rounding of a positive rational to binary64: 53 significant bits, the
    exponent of the last bit not below -1074 (subnormal numbers), overflow
    to infinity from [2 ^ 1024] on. *)
Definition round64_pos (x : Q) : number :=
  let ex := Z.max (ilog2 x - 52) (-1074) in
  let v :=
    if (ex <=? 0)%Z
    then inject_Z (round_half_even (x * inject_Z (2 ^ (- ex))))
         / inject_Z (2 ^ (- ex))
    else inject_Z (round_half_even (x / inject_Z (2 ^ ex)) * 2 ^ ex) in
  if Qle_bool (inject_Z (2 ^ 1024)) v then PosInfinity else Num (Qred v).

Definition neg64 (a : number) : number :=
  match a with
  | Num q => Num (Qred (- q))
  | PosInfinity => NegInfinity
  | NegInfinity => PosInfinity
  | NaN => NaN
  end.

(** The binary64 value of a rational: what [JSON.parse] makes of a number
    literal, and what an operation makes of its exact result. *)
Definition round64 (x : Q) : number :=
  match Qcompare x 0 with
  | Eq => Num 0
  | Gt => round64_pos x
  | Lt => neg64 (round64_pos (- x))
  end.

(** [a - b] *)
Definition sub64 (a b : number) : number :=
  match a, b with
  | NaN, _ | _, NaN => NaN
  | Num x, Num y => round64 (x - y)
  | PosInfinity, PosInfinity | NegInfinity, NegInfinity => NaN
  | PosInfinity, _ | _, NegInfinity => PosInfinity
  | NegInfinity, _ | _, PosInfinity => NegInfinity
  end.

(** [a * b] *)
Definition mul64 (a b : number) : number :=
  match a, b with
  | NaN, _ | _, NaN => NaN
  | Num x, Num y => round64 (x * y)
  | Num x, PosInfinity | PosInfinity, Num x =>
      match Qcompare x 0 with
      | Eq => NaN | Gt => PosInfinity | Lt => NegInfinity
      end
  | Num x, NegInfinity | NegInfinity, Num x =>
      match Qcompare x 0 with
      | Eq => NaN | Gt => NegInfinity | Lt => PosInfinity
      end
  | PosInfinity, PosInfinity | NegInfinity, NegInfinity => PosInfinity
  | PosInfinity, NegInfinity | NegInfinity, PosInfinity => NegInfinity
  end.

(** [a <= b]; NaN compares with nothing. *)
Definition le64 (a b : number) : Prop :=
  match a, b with
  | NaN, _ | _, NaN => False
  | NegInfinity, _ | _, PosInfinity => True
  | Num x, Num y => x <= y
  | _, _ => False
  end.

Definition number_eqb (a b : number) : bool :=
  match a, b with
  | Num x, Num y => Qeq_bool x y
  | PosInfinity, PosInfinity | NegInfinity, NegInfinity => true
  | _, _ => false
  end.

(** [x || 0]: zero and NaN are falsy. *)
Definition or_zero (x : number) : number :=
  match x with
  | Num q => if Qeq_bool q 0 then Num 0 else x
  | NaN => Num 0
  | _ => x
  end.

Definition decimal (n : N) : jsstring :=
  js (NilEmpty.string_of_uint (N.to_uint n)).

(** The digits of [Number::toString] for an integer [x] of [n] decimal
    digits: the least number [k] of digits, from [k] on, for which some
    [s * 10 ^ (n - k)] rounds to [x], with the [s] nearest to [x]; the result
    is [s] and the decimal exponent. *)
Fixpoint shortest (fuel : nat) (k : Z) (x n : Z) : Z * Z :=
  let u := (10 ^ (n - k))%Z in
  let lo := (x / u)%Z in
  let hi := (lo + 1)%Z in
  let ok s := number_eqb (round64 (inject_Z (s * u))) (Num (inject_Z x)) in
  let pick s := if (s =? 10 ^ k)%Z then (1%Z, n) else (s, (n - 1)%Z) in
  match fuel with
  | O => pick lo
  | S fuel' =>
      match ok lo, ok hi with
      | true, true =>
          match (x - lo * u ?= hi * u - x)%Z with
          | Lt => pick lo
          | Gt => pick hi
          | Eq => if Z.even lo then pick lo else pick hi
          end
      | true, false => pick lo
      | false, true => pick hi
      | false, false => shortest fuel' (k + 1)%Z x n
      end
  end.

(** [Number::toString] of a binary64 integer from [1e21] on: exponent
    notation with the shortest digits that read back as the number (17
    digits always do). *)
Definition toString_large (x : Z) : jsstring :=
  let n := Z.of_nat (List.length (decimal (Z.to_N x))) in
  let (s, e) := shortest 17 1 x n in
  match decimal (Z.to_N s) with
  | [] => []
  | d :: rest =>
      d :: (match rest with [] => [] | _ => js "." ++ rest end)
      ++ js "e+" ++ decimal (Z.to_N e)
  end.

(** [x.toFixed(0)]: the text of a value that is not finite; else the sign,
    then [Number::toString] from [1e21] on and below it the integer nearest
    to [|x|], the larger one on a tie. *)
Definition toFixed0 (x : number) : jsstring :=
  match x with
  | NaN => js "NaN"
  | PosInfinity => js "Infinity"
  | NegInfinity => js "-Infinity"
  | Num q =>
      (if Qle_bool 0 q then [] else js "-")
      ++ (if Qle_bool (inject_Z (10 ^ 21)) (Qabs q)
          then toString_large (Qfloor (Qabs q))
          else decimal (Z.to_N (Qfloor (Qabs q + (1 # 2)))))
  end.

(** ** Rendering of a source (App.js, lines 158-181) *)

(** [source.distance || 0]: [undefined], [null] and [0] are falsy. *)
Definition distance_or_0 (s : Source) : number :=
  match distance s with
  | Val d => or_zero (round64 d)
  | _ => Num 0
  end.

(** [const similarity = (1 - (source.distance || 0)) * 100] *)
Definition similarity (s : Source) : number :=
  mul64 (sub64 (Num 1) (distance_or_0 s)) (Num 100).

(** [source.title?.substring(0, 40) + (source.title?.length > 40 ? '...' : '')
    || 'Unknown'].  [+] binds tighter than [||]; for a missing title the left
    operand of [+] is [undefined], which concatenates as the text
    "undefined". *)
Definition display_title (s : Source) : jsstring :=
  let sum :=
    match title s with
    | Val t =>
        firstn 40 t ++ (if (40 <? List.length t)%nat then js "..." else [])
    | _ => js "undefined"
    end in
  if truthy_string sum then sum else js "Unknown".

(** [source.url && source.url !== 'Unknown' && source.url !== ''], as the
    condition of the conditional expression. *)
Definition hasUrl (s : Source) : bool :=
  match url s with
  | Val u =>
      truthy_string u && negb (jsstring_eqb u (js "Unknown"))
      && negb (jsstring_eqb u [])
  | _ => false
  end.

(** [x || fallback] for a string-valued property. *)
Definition or_else (f : field jsstring) (fallback : jsstring) : jsstring :=
  match f with
  | Val t => if truthy_string t then t else fallback
  | _ => fallback
  end.

(** The element holding the title: an [<a>] or a [<span>]. *)
Inductive TitleNode : Type :=
| Anchor (href : jsstring) (tooltip : jsstring) (label : jsstring)
| Span (tooltip : jsstring) (label : jsstring).

(** One rendered line: the title node followed by " (NN% match)". *)
Record SourceLine : Type := mkLine {
  node : TitleNode;
  percent : jsstring
}.

Definition renderSource (s : Source) : SourceLine :=
  {| node :=
       if hasUrl s
       then Anchor (match url s with Val u => u | _ => [] end)
                   (js "Open: " ++ or_else (title s) (js "Unknown"))
                   (display_title s)
       else Span (or_else (filename s) (js "No URL available"))
                 (display_title s);
     percent := toFixed0 (similarity s) |}.

(** [arr.slice(0, n)] *)
Definition slice0 (n : nat) (l : list Source) : list Source := firstn n l.

(** The sources of a message that reach the screen: those of a bot message
    whose [sources] is a non-empty array, cut by [slice(0, 3)]. *)
Definition shown_sources (m : Message) : list Source :=
  match sender m, sources m with
  | bot, Some l => if (0 <? List.length l)%nat then slice0 3 l else []
  | _, _ => []
  end.

Definition render_sources (m : Message) : list SourceLine :=
  List.map renderSource (shown_sources m).

(** ** The request (App.js, lines 43-49) *)

Inductive json : Type :=
| JString (s : jsstring)
| JNumber (q : Q)
| JBoolean (b : bool).

(** The argument of [fetch]; [body] is the object handed to
    [JSON.stringify], its properties in insertion order. *)
Record Request : Type := mkRequest {
  endpoint : jsstring;
  method : jsstring;
  headers : list (jsstring * jsstring);
  body : list (jsstring * json)
}.

Definition chat_request (input : jsstring) : Request :=
  {| endpoint := js "https://inceptiaai-production.up.railway.app/chat";
     method := js "POST";
     headers := [(js "Content-Type", js "application/json")];
     body := [(js "message", JString input); (js "max_results", JNumber 5)] |}.

(** What [await response.json()] yields: a rejection, [null] (on which
    [data.response] throws), or an object with the two properties read. *)
Inductive Body : Type :=
| BodyInvalid
| BodyNull
| BodyData (response : field jsstring) (srcs : field (list Source)).

(** How the promise of [fetch] settles. *)
Inductive FetchResult : Type :=
| Rejected
| Responded (ok : bool) (b : Body).

(** The call failed: network error or non-OK response. *)
Definition fetch_failed (r : FetchResult) : bool :=
  match r with
  | Rejected => true
  | Responded ok _ => negb ok
  end.

Inductive Effect : Type :=
| Fetch (r : Request)
| ConsoleError.

(** ** [handleSendMessage] (App.js, lines 27-78)

    The handler reads [inputValue] and [isLoading] of the render it was
    created in and updates [messages] through [prev => [...prev, m]]; the
    model runs every event on the committed state. *)

(** [!inputValue.trim() || isLoading] *)
Definition guard (st : AppState) : bool :=
  negb (truthy_string (trim (inputValue st))) || isLoading st.

(** The [disabled] attribute of the send button uses the same expression. *)
Definition send_disabled (st : AppState) : bool := guard st.

Definition userMessage (now ts : Z) (input : jsstring) : Message :=
  {| id := now; text := Val input; sender := user; timestamp := ts;
     sources := None |}.

(** Up to the [await]: the early return ([None]), or the three state updates
    and the request. *)
Definition handleSendMessage_begin (now ts : Z) (st : AppState)
  : option (AppState * Request) :=
  if guard st then None
  else
    Some ({| messages := messages st ++ [userMessage now ts (inputValue st)];
             inputValue := [];
             isLoading := true |},
          chat_request (inputValue st)).

Definition error_text : jsstring :=
  js "I'm sorry, I'm having trouble connecting to my knowledge base. Please make sure the backend server is running and try again.".

Definition errorMessage (now ts : Z) : Message :=
  {| id := now + 1; text := Val error_text; sender := bot; timestamp := ts;
     sources := None |}.

(** [data.sources || []] *)
Definition sources_or_empty (f : field (list Source)) : list Source :=
  match f with
  | Val l => l
  | _ => []
  end.

Definition botMessage (now ts : Z) (response : field jsstring)
    (srcs : field (list Source)) : Message :=
  {| id := now + 1; text := response; sender := bot; timestamp := ts;
     sources := Some (sources_or_empty srcs) |}.

(** The [try] block after the [await]: the message it builds, or [None] when
    it throws. *)
Definition try_block (r : FetchResult) (now ts : Z) : option Message :=
  match r with
  | Responded true (BodyData response srcs) =>
      Some (botMessage now ts response srcs)
  | _ => None
  end.

(** After the [await]: [try] / [catch] / [finally]. *)
Definition handleSendMessage_settle (r : FetchResult) (now ts : Z)
    (st : AppState) : AppState * list Effect :=
  let (m, effs) :=
    match try_block r now ts with
    | Some m => (m, [])
    | None => (errorMessage now ts, [ConsoleError])
    end in
  ({| messages := messages st ++ [m];
      inputValue := inputValue st;
      isLoading := false |}, effs).

(** The surroundings of one call: the clock readings before and after the
    [await], and the answer of the network. *)
Record Env : Type := mkEnv {
  now0 : Z; ts0 : Z;
  network : Request -> FetchResult;
  now1 : Z; ts1 : Z
}.

(** One whole call, with nothing else happening while it awaits. *)
Definition handleSendMessage (env : Env) (st : AppState)
  : AppState * list Effect :=
  match handleSendMessage_begin (now0 env) (ts0 env) st with
  | None => (st, [])
  | Some (st1, req) =>
      let (st2, effs) :=
        handleSendMessage_settle (network env req) (now1 env) (ts1 env) st1 in
      (st2, Fetch req :: effs)
  end.

(** ** The component as a transition system *)

Inductive Event : Type :=
| Change (v : jsstring)
| SendClicked (now ts : Z)
| KeyPress (key : jsstring) (shiftKey : bool) (now ts : Z)
| FetchSettled (r : FetchResult) (now ts : Z).

Definition send (now ts : Z) (st : AppState) : AppState * list Effect :=
  match handleSendMessage_begin now ts st with
  | None => (st, [])
  | Some (st1, req) => (st1, [Fetch req])
  end.

Definition step (st : AppState) (e : Event) : AppState * list Effect :=
  match e with
  | Change v =>
      ({| messages := messages st; inputValue := v;
          isLoading := isLoading st |}, [])
  | SendClicked now ts => send now ts st
  | KeyPress key shiftKey now ts =>
      if jsstring_eqb key (js "Enter") && negb shiftKey
      then send now ts st else (st, [])
  | FetchSettled r now ts => handleSendMessage_settle r now ts st
  end.

Fixpoint run (st : AppState) (es : list Event) : AppState * list Effect :=
  match es with
  | [] => (st, [])
  | e :: es' =>
      let (st1, eff1) := step st e in
      let (st2, eff2) := run st1 es' in
      (st2, eff1 ++ eff2)
  end.

Definition is_settle (e : Event) : bool :=
  match e with FetchSettled _ _ _ => true | _ => false end.

Definition fetches (effs : list Effect) : list Request :=
  flat_map (fun e => match e with Fetch r => [r] | ConsoleError => [] end) effs.

Definition initial_messages (ts : Z) : list Message :=
  [ {| id := 1;
       text := Val (js "Hello! I'm Inceptia AI, your Startup India assistant. I can help you with information about startup registration, funding opportunities, tax benefits, and government policies. How can I assist you today?");
       sender := bot; timestamp := ts; sources := None |} ].

Definition initial_state (ts : Z) : AppState :=
  {| messages := initial_messages ts; inputValue := []; isLoading := false |}.

(** The same source with another [distance]. *)
Definition with_distance (s : Source) (f : field Q) : Source :=
  {| distance := f; title := title s; url := url s; filename := filename s |}.

(** The shape of a request built by [handleSendMessage]. *)
Definition sent_shape (r : Request) : Prop :=
  exists input,
    trim input <> []
    /\ r = chat_request input
    /\ body r = [(js "message", JString input); (js "max_results", JNumber 5)]
    /\ List.map fst (body r) = [js "message"; js "max_results"].

(** Requests issued beyond the first one. *)
Definition retries (effs : list Effect) : nat :=
  pred (List.length (fetches effs)).

(** ** Sample inputs *)



(** A retriever output in ascending order of distance. *)
Definition four_sources : list Source :=
  [ mkSource (Val (1 # 10)) (Val (js "Startup India Initiative")) Null Undefined;
    mkSource (Val (1 # 4)) (Val (js "Seed Fund Scheme")) Null Undefined;
    mkSource (Val (1 # 2)) (Val (js "Tax exemptions")) Null Undefined;
    mkSource (Val (3 # 4)) (Val (js "DPIIT recognition")) Null Undefined ].

(** The component after [input] has been typed into the text area. *)
Definition typed (input : string) : AppState :=
  {| messages := initial_messages 0; inputValue := js input;
     isLoading := false |}.

(** A call during which the network is down. *)
Definition offline : Env :=
  {| now0 := 1000; ts0 := 1000; network := fun _ => Rejected;
     now1 := 2000; ts1 := 2000 |}.

(** Sources that are not in order of distance. *)
Definition unsorted_sources : list Source :=
  [ mkSource (Val (1 # 2)) (Val (js "Tax exemptions")) Null Undefined;
    mkSource (Val (1 # 8)) (Val (js "Startup India Initiative")) Null Undefined;
    mkSource (Val (1 # 4)) (Val (js "Seed Fund Scheme")) Null Undefined ].


(** A call answered with a body that is not JSON. *)
Definition garbled : Env :=
  {| now0 := 1000; ts0 := 1000;
     network := fun _ => Responded true BodyInvalid;
     now1 := 2000; ts1 := 2000 |}.

(** A call answered with four sources. *)
Definition answering : Env :=
  {| now0 := 1000; ts0 := 1000;
     network := fun _ =>
       Responded true (BodyData (Val (js "Startup India is an initiative."))
                                (Val four_sources));
     now1 := 2000; ts1 := 2000 |}.

(** ** The rest of the view (App.js, lines 129-277) *)

(** The quick suggestions (lines 260-265); a click calls
    [setInputValue(suggestion)], the event [Change suggestion]. *)
Definition suggestions : list jsstring :=
  [ js "What is Startup India?";
    js "How to register a startup?";
    js "Tax exemptions available?";
    js "Funding opportunities?" ].

(** [messages.length === 1 && (...)] *)
Definition show_suggestions (st : AppState) : bool :=
  (List.length (messages st) =? 1)%nat.

(** [{isLoading && <TypingIndicator />}] *)
Definition typing_indicator (st : AppState) : bool := isLoading st.

(** The block of sources is rendered under
    [message.sender === 'bot' && message.sources && message.sources.length > 0]. *)
Definition sources_block (m : Message) : bool :=
  match sender m, sources m with
  | bot, Some l => (0 <? List.length l)%nat
  | _, _ => false
  end.




(** ** Observations on runs *)

(** The input holds a code unit that [trim] keeps. *)
Definition non_blank (s : jsstring) : bool :=
  existsb (fun c => negb (is_white_space c)) s.

(** The events that call [handleSendMessage]: a click on the button, or
    [e.key === 'Enter' && !e.shiftKey] in [handleKeyPress]. *)
Definition is_send_event (e : Event) : bool :=
  match e with
  | SendClicked _ _ => true
  | KeyPress key shiftKey _ _ =>
      jsstring_eqb key (js "Enter") && negb shiftKey
  | _ => false
  end.

(** The clock readings an event carries: [Date.now()] and [new Date()]. *)
Definition event_now (e : Event) : Z :=
  match e with
  | Change _ => 0
  | SendClicked now _ | KeyPress _ _ now _ | FetchSettled _ now _ => now
  end.

Definition event_ts (e : Event) : Z :=
  match e with
  | Change _ => 0
  | SendClicked _ ts | KeyPress _ _ _ ts | FetchSettled _ _ ts => ts
  end.

(** The texts of the user's messages in a history, oldest first. *)
Definition user_inputs (l : list Message) : list jsstring :=
  flat_map (fun m => match sender m, text m with
                     | user, Val t => [t]
                     | _, _ => []
                     end) l.

(** A run that the browser can produce: a call of [fetch] settles only
    while the call that issued it is waiting. *)
Fixpoint feasible (st : AppState) (es : list Event) : bool :=
  match es with
  | [] => true
  | e :: es' =>
      (if is_settle e then isLoading st else true)
      && feasible (fst (step st e)) es'
  end.

Definition settled (es : list Event) : nat :=
  List.length (filter is_settle es).

Definition loading_count (st : AppState) : nat :=
  if isLoading st then 1%nat else 0%nat.

(** [n] senders in turn, starting with [first]. *)
Fixpoint alternating (first : Sender) (n : nat) : list Sender :=
  match n with
  | O => []
  | S n' =>
      first :: alternating (match first with user => bot | bot => user end) n'
  end.

(** The invariant of the history: senders in turn from the greeting on, an
    unanswered user message exactly while loading. *)
Definition in_turn (st : AppState) : Prop :=
  List.map sender (messages st)
  = alternating bot (List.length (messages st))
  /\ isLoading st = Nat.even (List.length (messages st))
  /\ messages st <> [].

(** The clock readings of the events, input changes apart, are all above
    [bound], and each one is at least 2 above the one before it. *)
Fixpoint spaced (bound : Z) (es : list Event) : Prop :=
  match es with
  | [] => True
  | Change _ :: es' => spaced bound es'
  | e :: es' => (bound < event_now e)%Z /\ spaced (event_now e + 1)%Z es'
  end.

(** ** The statements of the specification, as definitions of their own *)

(** The similarity of the specification: [(1 - distance) * 100], clamped to
    [[0, 100]]. *)
Definition clamp (lo hi x : Q) : Q :=
  if Qle_bool x lo then lo else if Qle_bool hi x then hi else x.


(** The request of the specification:
    [{message: string, session_id?: string, include_debug?: boolean}]. *)
Definition spec_field_ok (kv : jsstring * json) : bool :=
  match kv with
  | (k, JString _) =>
      jsstring_eqb k (js "message") || jsstring_eqb k (js "session_id")
  | (k, JBoolean _) => jsstring_eqb k (js "include_debug")
  | (_, JNumber _) => false
  end.

Definition spec_request_ok (b : list (jsstring * json)) : bool :=
  existsb (fun kv => jsstring_eqb (fst kv) (js "message")) b
  && forallb spec_field_ok b.

(** Ascending order of the distances, as the component reads them. *)
Definition ascending (l : list Source) : Prop :=
  Sorted (fun a b => le64 (distance_or_0 a) (distance_or_0 b)) l.

(** ** The answering pipeline *)

Module Pipeline.

(** Modelled from the spec: the confidence scorer (4.3), the fallback policy
    (4.4) and the response assembly (4.4, 4.5) belong to the backend, which
    is not among the sources.  The policy constants, the weighted combination
    of the similarities, the prompt, the completion service and the text of
    the refusal are left open, as the spec leaves them. *)
Inductive Topic : Type :=
| general | eligibility | registration | funding | tax
| women_entrepreneurs | off_topic | unknown.

Inductive FallbackState : Type := ANSWERABLE | HEDGE | REFUSE.

Record RetrievedPassage : Type := mkRetrieved {
  passage_id : N;
  passage_text : jsstring;
  passage_distance : Q
}.

Record Answer : Type := mkAnswer {
  response_text : jsstring;
  confidence : Q;
  answer_sources : list RetrievedPassage;
  topic_detected : Topic
}.

Definition is_off_topic (t : Topic) : bool :=
  match t with off_topic => true | _ => false end.

Definition is_empty (retrieved : list RetrievedPassage) : bool :=
  match retrieved with [] => true | _ => false end.

Section Policy.

Variables low_threshold high_threshold : Q.
Variable combine : list Q -> Q.
Variable build_prompt :
  jsstring -> list RetrievedPassage -> FallbackState -> jsstring.
Variable complete : jsstring -> jsstring.
Variable refusal_text : jsstring.

(** Modelled from the spec: [score(retrieved)] is a float in [[0, 1]] built
    from the similarities [1 - distance], and exactly 0 when [retrieved] is
    empty. *)
Definition score (retrieved : list RetrievedPassage) : Q :=
  match retrieved with
  | [] => 0
  | _ => clamp 0 1 (combine (List.map (fun p => 1 - passage_distance p) retrieved))
  end.

(** Modelled from the spec: the three transition rules of 4.4, word for
    word. *)
Inductive transition (c : Q) (retrieved : list RetrievedPassage) (t : Topic)
  : FallbackState -> Prop :=
| to_answerable :
    high_threshold <= c -> retrieved <> [] -> transition c retrieved t ANSWERABLE
| to_hedge :
    low_threshold <= c -> c < high_threshold -> transition c retrieved t HEDGE
| to_refuse :
    c < low_threshold \/ retrieved = [] \/ t = off_topic ->
    transition c retrieved t REFUSE.

(** Modelled from the spec: the rules as the pure function of (confidence,
    retrieved-empty, topic) the spec asks for, refusal being decided first. *)
Definition fallback_policy (c : Q) (retrieved_empty : bool) (t : Topic)
  : FallbackState :=
  if negb (Qle_bool low_threshold c) || retrieved_empty || is_off_topic t
  then REFUSE
  else if Qle_bool high_threshold c then ANSWERABLE else HEDGE.

(** Modelled from the spec: response assembly.  The second component lists
    the prompts sent to the completion service. *)
Definition answer_query (query : jsstring) (t : Topic)
    (retrieved : list RetrievedPassage) : Answer * list jsstring :=
  let c := score retrieved in
  match fallback_policy c (is_empty retrieved) t with
  | REFUSE =>
      ({| response_text := refusal_text; confidence := c;
          answer_sources := []; topic_detected := t |}, [])
  | st =>
      let p := build_prompt query retrieved st in
      ({| response_text := complete p; confidence := c;
          answer_sources := firstn 3 retrieved; topic_detected := t |}, [p])
  end.

End Policy.

End Pipeline.

(** * Properties *)

(** ** Strings *)

Lemma jsstring_eqb_eq (a b : jsstring) : jsstring_eqb a b = true <-> a = b.
Proof.
  unfold jsstring_eqb.
  destruct (list_eq_dec N.eq_dec a b); split; congruence.
Qed.

Lemma trimStart_nil_iff (s : jsstring) :
  trimStart s = [] <-> forallb is_white_space s = true.
Proof.
  induction s as [|c r IH]; simpl.
  - tauto.
  - destruct (is_white_space c); simpl.
    + exact IH.
    + split; discriminate.
Qed.

(** Trimming leaves nothing exactly when every code unit is white space. *)
Lemma trim_nil_iff (s : jsstring) :
  trim s = [] <-> forallb is_white_space s = true.
Proof.
  unfold trim, trimEnd.
  rewrite <- trimStart_nil_iff.
  split; intro H.
  - apply (f_equal (@rev N)) in H.
    rewrite rev_involutive in H. simpl in H.
    apply trimStart_nil_iff in H.
    rewrite forallb_forall in H.
    destruct (trimStart s) as [|c r] eqn:E; [reflexivity|].
    assert (Hc : is_white_space c = true)
      by (apply H, in_rev; rewrite rev_involutive; left; reflexivity).
    destruct s as [|c' r']; [discriminate|].
    simpl in E. destruct (is_white_space c') eqn:E'.
    + exfalso. clear -E Hc.
      induction r' as [|x r' IH]; simpl in E; [discriminate|].
      destruct (is_white_space x) eqn:Ex; [auto|].
      injection E as -> _. congruence.
    + injection E as -> _. congruence.
  - rewrite H. reflexivity.
Qed.

Lemma guard_blank (st : AppState) :
  trim (inputValue st) = [] -> guard st = true.
Proof. unfold guard. intros ->. reflexivity. Qed.

(** ** Rounding to binary64 *)

Lemma round_half_even_ge (r : Q) (n : Z) :
  inject_Z n <= r -> (n <= round_half_even r)%Z.
Proof.
  intro H. unfold round_half_even.
  assert (F : (n <= Qfloor r)%Z).
  { rewrite <- (Qfloor_Z n). apply Qfloor_resp_le. exact H. }
  destruct (Qcompare (r - inject_Z (Qfloor r)) (1 # 2)); try lia.
  destruct (Z.even (Qfloor r)); lia.
Qed.

Lemma round_half_even_le (r : Q) (n : Z) :
  r <= inject_Z n -> (round_half_even r <= n)%Z.
Proof.
  intro H. unfold round_half_even.
  pose proof (Qfloor_le r) as Lo.
  destruct (Qcompare (r - inject_Z (Qfloor r)) (1 # 2)) eqn:C.
  - apply Qeq_alt in C.
    assert (L : inject_Z (Qfloor r) < inject_Z n) by lra.
    rewrite <- Zlt_Qlt in L. destruct (Z.even (Qfloor r)); lia.
  - apply Qlt_alt in C.
    assert (L : inject_Z (Qfloor r) <= inject_Z n) by lra.
    rewrite <- Zle_Qle in L. exact L.
  - apply Qgt_alt in C.
    assert (L : inject_Z (Qfloor r) < inject_Z n) by lra.
    rewrite <- Zlt_Qlt in L. lia.
Qed.

Lemma pow2_pos (z : Z) : (0 <= z)%Z -> (0 < 2 ^ z)%Z.
Proof. intro H. apply Z.pow_pos_nonneg; lia. Qed.

Lemma inject_pow2_pos (z : Z) : (0 <= z)%Z -> 0 < inject_Z (2 ^ z).
Proof.
  intro H. change 0 with (inject_Z 0). rewrite <- Zlt_Qlt.
  apply pow2_pos. exact H.
Qed.

(** From exponent 0 on, [ilog2] stays below the number. *)
Lemma ilog2_below (x : Q) :
  0 < x -> (0 <= ilog2 x)%Z -> inject_Z (2 ^ ilog2 x) <= x.
Proof.
  destruct x as [n p]. intros Hx He.
  assert (Hn : (0 < n)%Z).
  { unfold Qlt in Hx. cbn [Qnum Qden] in Hx. lia. }
  unfold Qle. cbn [Qnum Qden inject_Z]. rewrite Z.mul_1_r.
  unfold ilog2, pow2_le in *. cbn [Qnum Qden] in *.
  set (e0 := (Z.log2 n - Z.log2 (Z.pos p))%Z) in *.
  destruct (0 <=? e0)%Z eqn:E0.
  - destruct (2 ^ e0 * Z.pos p <=? n)%Z eqn:T.
    + apply Z.leb_le in T. exact T.
    + apply Z.leb_le in E0.
      destruct (Z.log2_spec n Hn) as [Ln _].
      destruct (Z.log2_spec (Z.pos p) (Pos2Z.is_pos p)) as [_ Lp].
      pose proof (Z.log2_nonneg (Z.pos p)) as Np.
      assert (P : (0 < 2 ^ (e0 - 1))%Z) by (apply pow2_pos; lia).
      assert (E : (2 ^ Z.log2 n
                   = 2 ^ (e0 - 1) * 2 ^ Z.succ (Z.log2 (Z.pos p)))%Z).
      { rewrite <- Z.pow_add_r by lia. f_equal. unfold e0. lia. }
      nia.
  - apply Z.leb_gt in E0.
    destruct (Z.pos p <=? n * 2 ^ (- e0))%Z; lia.
Qed.

Lemma le64_num (a b : Q) : le64 (Num a) (Num b) <-> a <= b.
Proof. reflexivity. Qed.

Lemma round64_pos_nonneg (x : Q) : 0 < x -> le64 (Num 0) (round64_pos x).
Proof.
  intro Hx. unfold round64_pos.
  set (ex := Z.max (ilog2 x - 52) (-1074)).
  match goal with |- context [Qle_bool ?a ?v] => set (V := v) end.
  destruct (Qle_bool (inject_Z (2 ^ 1024)) V); [exact I|].
  simpl. rewrite Qred_correct. unfold V.
  destruct (ex <=? 0)%Z eqn:E.
  - apply Z.leb_le in E.
    assert (P : 0 < inject_Z (2 ^ (- ex))) by (apply inject_pow2_pos; lia).
    apply Qle_shift_div_l; [exact P|]. rewrite Qmult_0_l.
    change 0 with (inject_Z 0). rewrite <- Zle_Qle.
    apply round_half_even_ge. change (inject_Z 0) with 0.
    apply Qmult_le_0_compat; lra.
  - apply Z.leb_gt in E.
    assert (P : 0 < inject_Z (2 ^ ex)) by (apply inject_pow2_pos; lia).
    change 0 with (inject_Z 0). rewrite <- Zle_Qle.
    apply Z.mul_nonneg_nonneg; [|apply Z.lt_le_incl, pow2_pos; lia].
    apply round_half_even_ge. change (inject_Z 0) with 0.
    apply Qle_shift_div_l; [exact P|]. rewrite Qmult_0_l. lra.
Qed.

(** Rounding does not cross an integer below [2 ^ 53]. *)
Lemma round64_pos_ge (x : Q) (c : Z) :
  0 < x -> (0 < c < 2 ^ 53)%Z -> inject_Z c <= x ->
  le64 (Num (inject_Z c)) (round64_pos x).
Proof.
  intros Hx Hc H. unfold round64_pos.
  set (ex := Z.max (ilog2 x - 52) (-1074)).
  match goal with |- context [Qle_bool ?a ?v] => set (V := v) end.
  destruct (Qle_bool (inject_Z (2 ^ 1024)) V); [exact I|].
  simpl. rewrite Qred_correct. unfold V.
  destruct (ex <=? 0)%Z eqn:E.
  - apply Z.leb_le in E.
    assert (P : 0 < inject_Z (2 ^ (- ex))) by (apply inject_pow2_pos; lia).
    apply Qle_shift_div_l; [exact P|].
    rewrite <- inject_Z_mult, <- Zle_Qle.
    apply round_half_even_ge. rewrite inject_Z_mult.
    apply Qmult_le_compat_r; lra.
  - apply Z.leb_gt in E.
    assert (Ee : ex = (ilog2 x - 52)%Z) by (unfold ex in *; lia).
    assert (P : 0 < inject_Z (2 ^ ex)) by (apply inject_pow2_pos; lia).
    pose proof (ilog2_below Hx ltac:(lia)) as B.
    assert (M : (2 ^ 52 <= round_half_even (x / inject_Z (2 ^ ex)))%Z).
    { apply round_half_even_ge. apply Qle_shift_div_l; [exact P|].
      rewrite <- inject_Z_mult, <- Z.pow_add_r by lia.
      replace (52 + ex)%Z with (ilog2 x) by lia. exact B. }
    rewrite <- Zle_Qle.
    assert (T : (2 <= 2 ^ ex)%Z).
    { change 2%Z with (2 ^ 1)%Z at 1. apply Z.pow_le_mono_r; lia. }
    nia.
Qed.

Lemma round64_pos_le (x : Q) (c : Z) :
  0 < x -> (0 < c < 2 ^ 53)%Z -> x <= inject_Z c ->
  exists q, round64_pos x = Num q /\ q <= inject_Z c.
Proof.
  intros Hx Hc H. unfold round64_pos.
  set (ex := Z.max (ilog2 x - 52) (-1074)).
  assert (E : (ex <= 0)%Z).
  { destruct (Z.le_gt_cases (ilog2 x) 52) as [L | G]; [unfold ex; lia|].
    exfalso. pose proof (ilog2_below Hx ltac:(lia)) as B.
    assert (T : (2 ^ 53 <= 2 ^ ilog2 x)%Z)
      by (apply Z.pow_le_mono_r; lia).
    assert (U : inject_Z (2 ^ ilog2 x) <= inject_Z c) by lra.
    rewrite <- Zle_Qle in U. lia. }
  rewrite (proj2 (Z.leb_le ex 0) E).
  assert (P : 0 < inject_Z (2 ^ (- ex))) by (apply inject_pow2_pos; lia).
  set (m := round_half_even (x * inject_Z (2 ^ (- ex)))).
  assert (M : (m <= c * 2 ^ (- ex))%Z).
  { apply round_half_even_le. rewrite inject_Z_mult.
    apply Qmult_le_compat_r; lra. }
  assert (V : inject_Z m / inject_Z (2 ^ (- ex)) <= inject_Z c).
  { apply Qle_shift_div_r; [exact P|].
    rewrite <- inject_Z_mult, <- Zle_Qle. exact M. }
  destruct (Qle_bool (inject_Z (2 ^ 1024))
              (inject_Z m / inject_Z (2 ^ (- ex)))) eqn:O.
  - exfalso. apply Qle_bool_iff in O.
    assert (U : inject_Z (2 ^ 1024) <= inject_Z c) by lra.
    rewrite <- Zle_Qle in U.
    assert (T : (2 ^ 53 <= 2 ^ 1024)%Z) by (apply Z.pow_le_mono_r; lia).
    lia.
  - eexists. split; [reflexivity|]. rewrite Qred_correct. exact V.
Qed.

Lemma le64_weaken_r (x : number) (a b : Q) :
  le64 x (Num a) -> a <= b -> le64 x (Num b).
Proof. destruct x; cbn [le64]; try tauto. intros. lra. Qed.

Lemma le64_weaken_l (x : number) (a b : Q) :
  le64 (Num a) x -> b <= a -> le64 (Num b) x.
Proof. destruct x; cbn [le64]; try tauto. intros. lra. Qed.

Lemma neg64_le (r : number) (a : Q) :
  le64 (Num a) r -> le64 (neg64 r) (Num (- a)).
Proof.
  destruct r; cbn [neg64 le64]; try tauto. rewrite Qred_correct.
  intros. lra.
Qed.

Lemma neg64_ge (r : number) (a : Q) :
  le64 r (Num a) -> le64 (Num (- a)) (neg64 r).
Proof.
  destruct r; cbn [neg64 le64]; try tauto. rewrite Qred_correct.
  intros. lra.
Qed.

Lemma round64_le_int (x : Q) (c : Z) :
  (- 2 ^ 53 < c < 2 ^ 53)%Z -> x <= inject_Z c ->
  le64 (round64 x) (Num (inject_Z c)).
Proof.
  intros Hc H. unfold round64.
  destruct (Qcompare x 0) eqn:C.
  - apply Qeq_alt in C. cbn [le64]. lra.
  - apply Qlt_alt in C.
    assert (Hx : 0 < - x) by lra.
    destruct (Z.lt_ge_cases c 0) as [N | N].
    + assert (B : inject_Z (- c) <= - x) by (rewrite inject_Z_opp; lra).
      pose proof (round64_pos_ge Hx (c := (- c)%Z) ltac:(lia) B) as G.
      apply neg64_le in G.
      apply (le64_weaken_r _ G). rewrite inject_Z_opp. lra.
    + pose proof (round64_pos_nonneg Hx) as G.
      apply neg64_le in G.
      apply (le64_weaken_r _ G).
      assert (0 <= inject_Z c)
        by (change 0 with (inject_Z 0); rewrite <- Zle_Qle; exact N).
      lra.
  - apply Qgt_alt in C.
    assert (Pc : (0 < c)%Z).
    { rewrite Zlt_Qlt. change (inject_Z 0) with 0. lra. }
    destruct (round64_pos_le C (c := c) ltac:(lia) H) as (q & -> & Hq).
    exact Hq.
Qed.

Lemma round64_ge_int (x : Q) (c : Z) :
  (- 2 ^ 53 < c < 2 ^ 53)%Z -> inject_Z c <= x ->
  le64 (Num (inject_Z c)) (round64 x).
Proof.
  intros Hc H. unfold round64.
  destruct (Qcompare x 0) eqn:C.
  - apply Qeq_alt in C. cbn [le64]. lra.
  - apply Qlt_alt in C.
    assert (Hx : 0 < - x) by lra.
    assert (Nc : (c < 0)%Z).
    { rewrite Zlt_Qlt. change (inject_Z 0) with 0. lra. }
    assert (B : - x <= inject_Z (- c)) by (rewrite inject_Z_opp; lra).
    destruct (round64_pos_le Hx (c := (- c)%Z) ltac:(lia) B) as (q & -> & Hq).
    cbn [neg64 le64]. rewrite Qred_correct. rewrite inject_Z_opp in Hq. lra.
  - apply Qgt_alt in C.
    destruct (Z.lt_ge_cases 0 c) as [P | P].
    + apply round64_pos_ge; [exact C | lia | exact H].
    + apply (le64_weaken_l _ (round64_pos_nonneg C)).
      change 0 with (inject_Z 0). rewrite <- Zle_Qle. exact P.
Qed.

Lemma or_zero_le (x : number) (a : Q) :
  le64 x (Num a) -> le64 (or_zero x) (Num a).
Proof.
  destruct x; cbn [or_zero le64]; try tauto.
  destruct (Qeq_bool q 0) eqn:E; [|tauto].
  apply Qeq_bool_iff in E. cbn [le64]. intros. lra.
Qed.

Lemma or_zero_ge (x : number) (a : Q) :
  le64 (Num a) x -> le64 (Num a) (or_zero x).
Proof.
  destruct x; cbn [or_zero le64]; try tauto.
  destruct (Qeq_bool q 0) eqn:E; [|tauto].
  apply Qeq_bool_iff in E. cbn [le64]. intros. lra.
Qed.

(** The similarity follows the distance across the integers: a distance of
    at least [k] gives at most [(1 - k) * 100], a distance of at most [k] at
    least [(1 - k) * 100]. *)
Lemma similarity_upper (s : Source) (d : Q) (k : Z) :
  distance s = Val d -> (- 2 ^ 40 <= k <= 2 ^ 40)%Z -> inject_Z k <= d ->
  le64 (similarity s) (Num (inject_Z ((1 - k) * 100))).
Proof.
  intros D Hk H. unfold similarity, distance_or_0. rewrite D.
  assert (P40 : (2 ^ 40 = 1099511627776)%Z) by reflexivity.
  assert (P53 : (2 ^ 53 = 9007199254740992)%Z) by reflexivity.
  pose proof (@or_zero_ge _ _ (round64_ge_int (c := k) ltac:(lia) H)) as G.
  destruct (or_zero (round64 d)) as [q| | |]; cbn [le64] in G;
    try contradiction; [|exact I].
  cbn [sub64].
  assert (B : 1 - q <= inject_Z (1 - k)).
  { unfold Z.sub. rewrite inject_Z_plus, inject_Z_opp.
    change (inject_Z 1) with 1. lra. }
  pose proof (round64_le_int (c := (1 - k)%Z) ltac:(lia) B) as G1.
  destruct (round64 (1 - q)) as [q1| | |]; cbn [le64] in G1;
    try contradiction; [|exact I].
  cbn [mul64]. apply round64_le_int; [lia|].
  rewrite inject_Z_mult. change (inject_Z 100) with 100. lra.
Qed.

Lemma similarity_lower (s : Source) (d : Q) (k : Z) :
  distance s = Val d -> (- 2 ^ 40 <= k <= 2 ^ 40)%Z -> d <= inject_Z k ->
  le64 (Num (inject_Z ((1 - k) * 100))) (similarity s).
Proof.
  intros D Hk H. unfold similarity, distance_or_0. rewrite D.
  assert (P40 : (2 ^ 40 = 1099511627776)%Z) by reflexivity.
  assert (P53 : (2 ^ 53 = 9007199254740992)%Z) by reflexivity.
  pose proof (@or_zero_le _ _ (round64_le_int (c := k) ltac:(lia) H)) as G.
  destruct (or_zero (round64 d)) as [q| | |]; cbn [le64] in G;
    try contradiction; [|exact I].
  cbn [sub64].
  assert (B : inject_Z (1 - k) <= 1 - q).
  { unfold Z.sub. rewrite inject_Z_plus, inject_Z_opp.
    change (inject_Z 1) with 1. lra. }
  pose proof (round64_ge_int (c := (1 - k)%Z) ltac:(lia) B) as G1.
  destruct (round64 (1 - q)) as [q1| | |]; cbn [le64] in G1;
    try contradiction; [|exact I].
  cbn [mul64]. apply round64_ge_int; [lia|].
  rewrite inject_Z_mult. change (inject_Z 100) with 100. lra.
Qed.

Lemma similarity_in_range (s : Source) (d : Q) :
  distance s = Val d -> 0 <= d <= 1 ->
  exists q, similarity s = Num q /\ 0 <= q <= 100.
Proof.
  intros D [H0 H1].
  pose proof (similarity_upper s (k := 0) D ltac:(lia) H0) as U.
  pose proof (similarity_lower s (k := 1) D ltac:(lia) H1) as L.
  destruct (similarity s) as [q| | |]; cbn [le64] in U, L;
    try contradiction.
  exists q. split; [reflexivity|].
  change (inject_Z ((1 - 0) * 100)) with 100 in U.
  change (inject_Z ((1 - 1) * 100)) with 0 in L. lra.
Qed.

(** ** Similarity of a displayed source *)




(** ** A missing distance *)

(** C9: a source whose distance is [undefined], [null] or 0 has similarity
    exactly 100, is shown with "100", and its line is the one of the same
    source at distance 0. *)
Theorem missing_distance_full_match (s : Source) :
  (distance s = Undefined \/ distance s = Null
   \/ exists d, distance s = Val d /\ d == 0) ->
  similarity s = Num (100 # 1)
  /\ percent (renderSource s) = js "100"
  /\ renderSource s = renderSource (with_distance s (Val 0)).
Proof.
  intro H.
  assert (E : distance_or_0 s = Num 0).
  { unfold distance_or_0.
    destruct H as [-> | [-> | [d [-> Hd]]]]; try reflexivity.
    unfold round64. apply Qeq_alt in Hd. rewrite Hd. reflexivity. }
  assert (S : similarity s = Num (100 # 1))
    by (unfold similarity; rewrite E; reflexivity).
  assert (S0 : similarity (with_distance s (Val 0)) = Num (100 # 1))
    by reflexivity.
  repeat split.
  - exact S.
  - unfold renderSource. cbn [percent]. rewrite S. reflexivity.
  - unfold renderSource. rewrite S, S0. reflexivity.
Qed.

Lemma missing_distance_full_match_witness :
  similarity (mkSource Null (Val (js "Startup India")) Null Undefined)
  = Num (100 # 1).
Proof.
  apply (missing_distance_full_match
           (mkSource Null (Val (js "Startup India")) Null Undefined)).
  right. left. reflexivity.
Defined.

(** ** Links *)

(** C10: the title of a source is rendered as an anchor exactly when its url
    is a string that is neither empty nor "Unknown"; the anchor then points
    to that url.  In every other case the title is a plain span. *)
Theorem link_iff_real_url (s : Source) :
  ((exists href tip label, node (renderSource s) = Anchor href tip label)
   <-> (exists u, url s = Val u /\ u <> [] /\ u <> js "Unknown"))
  /\ (forall u, url s = Val u -> u <> [] -> u <> js "Unknown" ->
        node (renderSource s)
        = Anchor u (js "Open: " ++ or_else (title s) (js "Unknown"))
                 (display_title s))
  /\ ((url s = Undefined \/ url s = Null \/ url s = Val []
       \/ url s = Val (js "Unknown")) ->
        node (renderSource s)
        = Span (or_else (filename s) (js "No URL available"))
               (display_title s)).
Proof.
  assert (Hu : forall u, url s = Val u ->
                 (hasUrl s = true <-> u <> [] /\ u <> js "Unknown")).
  { intros u E. unfold hasUrl. rewrite E.
    rewrite !andb_true_iff, !negb_true_iff.
    split.
    - intros [[_ H1] H2]. split; intro C.
      + rewrite (proj2 (jsstring_eqb_eq u []) C) in H2. discriminate.
      + rewrite (proj2 (jsstring_eqb_eq u (js "Unknown")) C) in H1.
        discriminate.
    - intros [H1 H2]. repeat split.
      + destruct u; [congruence | reflexivity].
      + destruct (jsstring_eqb u (js "Unknown")) eqn:C; [|reflexivity].
        apply jsstring_eqb_eq in C. contradiction.
      + destruct (jsstring_eqb u []) eqn:C; [|reflexivity].
        apply jsstring_eqb_eq in C. contradiction. }
  repeat split.
  - intros (href & tip & label & H). unfold renderSource in H. simpl in H.
    destruct (hasUrl s) eqn:E; [|discriminate].
    destruct (url s) as [| |u] eqn:U;
      try (unfold hasUrl in E; rewrite U in E; discriminate).
    exists u. split; [reflexivity|]. apply (Hu u eq_refl). reflexivity.
  - intros (u & U & H1 & H2). unfold renderSource. simpl.
    rewrite (proj2 (Hu u U) (conj H1 H2)). eauto.
  - intros u U H1 H2. unfold renderSource. simpl.
    rewrite (proj2 (Hu u U) (conj H1 H2)), U. reflexivity.
  - intros H. unfold renderSource, hasUrl. simpl.
    destruct H as [-> | [-> | [-> | ->]]]; reflexivity.
Qed.

(** ** The sources that are shown *)

Lemma Sorted_firstn (A : Type) (R : A -> A -> Prop) (n : nat) (l : list A) :
  Sorted R l -> Sorted R (firstn n l).
Proof.
  revert l. induction n as [|n IH]; intros l H; simpl.
  - constructor.
  - destruct l as [|a l]; [constructor|].
    inversion H as [|? ? Hs Hd]; subst.
    constructor; [apply IH; exact Hs|].
    destruct n; simpl; [constructor|].
    destruct Hd; constructor; assumption.
Qed.

Lemma try_block_ok (response : field jsstring) (srcs : field (list Source))
    (now ts : Z) :
  try_block (Responded true (BodyData response srcs)) now ts
  = Some (botMessage now ts response srcs).
Proof. reflexivity. Qed.

Lemma four_sources_ascending : ascending four_sources.
Proof.
  unfold ascending, four_sources.
  repeat first [ apply Sorted_cons | apply Sorted_nil
               | apply HdRel_cons | apply HdRel_nil ];
    vm_compute; discriminate.
Qed.

(** C2, as stated, fails: the component does not sort.  An answer whose
    sources arrive at the distances 1/2, 1/8, 1/4 shows them in that
    order. *)
Lemma unsorted_sources_shown_as_received :
  try_block (Responded true (BodyData (Val (js "ok")) (Val unsorted_sources)))
    0 0
  = Some (botMessage 0 0 (Val (js "ok")) (Val unsorted_sources))
  /\ shown_sources (botMessage 0 0 (Val (js "ok")) (Val unsorted_sources))
     = unsorted_sources
  /\ ~ ascending
         (shown_sources
            (botMessage 0 0 (Val (js "ok")) (Val unsorted_sources))).
Proof.
  split; [reflexivity|]. split; [reflexivity|].
  change (shown_sources
            (botMessage 0 0 (Val (js "ok")) (Val unsorted_sources)))
    with unsorted_sources.
  unfold ascending, unsorted_sources. intro H.
  inversion H as [|? ? _ Hd]; subst.
  inversion Hd as [|? ? C]; subst.
  vm_compute in C. apply C. reflexivity.
Qed.

(** C2, amended: the sources shown for an answer are the first 3 of the
    sources received with it, or all of them when there are fewer: at most 3
    entries, a prefix of the received list in the received order.  The
    component does not sort them; they are in ascending order of distance
    whenever the received list is. *)
Theorem shown_sources_keep_order (retrieved : list Source)
    (response : field jsstring) (now ts : Z) :
  let m := botMessage now ts response (Val retrieved) in
  shown_sources m = firstn 3 retrieved
  /\ (List.length (shown_sources m) <= 3)%nat
  /\ List.length (render_sources m) = List.length (shown_sources m)
  /\ (exists rest, retrieved = shown_sources m ++ rest)
  /\ (ascending retrieved -> ascending (shown_sources m)).
Proof.
  cbv zeta.
  assert (E : shown_sources (botMessage now ts response (Val retrieved))
              = firstn 3 retrieved).
  { unfold shown_sources, botMessage. cbn [sender sources sources_or_empty].
    destruct retrieved; reflexivity. }
  unfold render_sources. rewrite E.
  split; [reflexivity|]. split; [rewrite length_firstn; lia|].
  split; [apply length_map|]. split.
  - exists (skipn 3 retrieved). symmetry. apply firstn_skipn.
  - apply Sorted_firstn.
Qed.

(** ** Blank input *)

(** C3: when the input is empty after trimming, the send button is disabled
    and a call of the handler, from the button or from the Enter key, returns
    at once: no request is issued, no message is appended, the state is
    unchanged. *)
Theorem blank_message_rejected (st : AppState) :
  trim (inputValue st) = [] ->
  send_disabled st = true
  /\ (forall now ts, handleSendMessage_begin now ts st = None)
  /\ (forall env, handleSendMessage env st = (st, []))
  /\ (forall now ts, step st (SendClicked now ts) = (st, []))
  /\ (forall key shiftKey now ts,
        step st (KeyPress key shiftKey now ts) = (st, [])).
Proof.
  intro H. pose proof (guard_blank st H) as G.
  assert (B : forall now ts, handleSendMessage_begin now ts st = None)
    by (intros; unfold handleSendMessage_begin; rewrite G; reflexivity).
  repeat split; intros.
  - exact G.
  - apply B.
  - unfold handleSendMessage. rewrite B. reflexivity.
  - simpl. unfold send. rewrite B. reflexivity.
  - simpl. unfold send. rewrite B.
    destruct (jsstring_eqb key (js "Enter") && negb shiftKey); reflexivity.
Qed.

Lemma blank_message_rejected_witness :
  trim (inputValue (typed "   ")) = []
  /\ send_disabled (typed "   ") = true.
Proof.
  split; [reflexivity|].
  apply (blank_message_rejected (typed "   ")). reflexivity.
Defined.

(** ** A failed call *)


Lemma try_block_failed (r : FetchResult) (now ts : Z) :
  fetch_failed r = true -> try_block r now ts = None.
Proof.
  destruct r as [|[|] b]; simpl; intro H; try reflexivity. discriminate.
Qed.

Lemma begin_passes (now ts : Z) (st : AppState) :
  guard st = false ->
  handleSendMessage_begin now ts st
  = Some ({| messages := messages st ++ [userMessage now ts (inputValue st)];
             inputValue := [];
             isLoading := true |},
          chat_request (inputValue st)).
Proof. unfold handleSendMessage_begin. intros ->. reflexivity. Qed.

Lemma failed_call (env : Env) (st : AppState) :
  guard st = false ->
  fetch_failed (network env (chat_request (inputValue st))) = true ->
  handleSendMessage env st
  = ({| messages :=
          (messages st ++ [userMessage (now0 env) (ts0 env) (inputValue st)])
          ++ [errorMessage (now1 env) (ts1 env)];
        inputValue := [];
        isLoading := false |},
     [Fetch (chat_request (inputValue st)); ConsoleError]).
Proof.
  intros G F. unfold handleSendMessage.
  rewrite (begin_passes _ _ _ G).
  unfold handleSendMessage_settle.
  rewrite (try_block_failed _ _ _ F). reflexivity.
Qed.





(** ** The request *)

(** C5, as stated, fails: the request for the input "hi" carries the field
    [max_results], which the request of the specification does not have, and
    neither of its optional fields. *)
Lemma request_carries_max_results :
  handleSendMessage_begin 0 0 (typed "hi")
  = Some ({| messages := initial_messages 0 ++ [userMessage 0 0 (js "hi")];
             inputValue := []; isLoading := true |},
          chat_request (js "hi"))
  /\ body (chat_request (js "hi"))
     = [(js "message", JString (js "hi")); (js "max_results", JNumber 5)]
  /\ spec_request_ok (body (chat_request (js "hi"))) = false.
Proof. repeat split. Qed.

Lemma fetches_app (a b : list Effect) :
  fetches (a ++ b) = fetches a ++ fetches b.
Proof. unfold fetches. apply flat_map_app. Qed.

Lemma send_shape (now ts : Z) (st : AppState) :
  Forall sent_shape (fetches (snd (send now ts st))).
Proof.
  unfold send, handleSendMessage_begin.
  destruct (guard st) eqn:G; simpl; constructor; [|constructor].
  exists (inputValue st). repeat split.
  unfold guard in G. apply orb_false_iff in G. destruct G as [G _].
  intro C. rewrite C in G. discriminate.
Qed.

Lemma step_shape (st : AppState) (e : Event) :
  Forall sent_shape (fetches (snd (step st e))).
Proof.
  destruct e as [v|now ts|key shiftKey now ts|r now ts]; simpl.
  - constructor.
  - apply send_shape.
  - destruct (jsstring_eqb key (js "Enter") && negb shiftKey);
      [apply send_shape | constructor].
  - unfold handleSendMessage_settle.
    destruct (try_block r now ts); simpl; constructor.
Qed.

(** C5, amended: every request sent to the chat endpoint, in any run of the
    component, consists of exactly the fields [message] (the input text, a
    string that is not blank) and [max_results] (the number 5); [session_id]
    and [include_debug] are never sent. *)
Theorem every_request_shape (st : AppState) (es : list Event) :
  Forall sent_shape (fetches (snd (run st es))).
Proof.
  revert st. induction es as [|e es IH]; intro st; simpl.
  - constructor.
  - pose proof (step_shape st e) as Hs.
    destruct (step st e) as [st1 eff1].
    specialize (IH st1). destruct (run st1 es) as [st2 eff2].
    simpl in *. rewrite fetches_app. apply Forall_app. split; assumption.
Qed.

(** ** Retries and timeouts *)

(** C6, as stated, fails: with the network down, the call for "hi" issues a
    single request and no retry before it shows the error message. *)
Lemma failed_call_not_retried :
  fetch_failed (network offline (chat_request (js "hi"))) = true
  /\ fetches (snd (handleSendMessage offline (typed "hi")))
     = [chat_request (js "hi")]
  /\ retries (snd (handleSendMessage offline (typed "hi"))) <> 1%nat.
Proof. repeat split. vm_compute. discriminate. Qed.

(** While a call is pending, nothing but the settling of [fetch] changes the
    messages or the loading state: the component starts no timer. *)
Lemma pending_until_settled (es : list Event) (st : AppState) :
  isLoading st = true ->
  existsb is_settle es = false ->
  isLoading (fst (run st es)) = true
  /\ messages (fst (run st es)) = messages st
  /\ snd (run st es) = [].
Proof.
  revert st. induction es as [|e es IH]; intros st L N; simpl.
  - auto.
  - simpl in N. apply orb_false_iff in N. destruct N as [Ne N].
    assert (G : guard st = true)
      by (unfold guard; rewrite L; apply orb_true_r).
    assert (S : forall now ts, send now ts st = (st, []))
      by (intros; unfold send, handleSendMessage_begin; rewrite G;
          reflexivity).
    assert (exists st1, step st e = (st1, []) /\ isLoading st1 = true
                        /\ messages st1 = messages st) as (st1 & E & L1 & M1).
    { destruct e as [v|now ts|key shiftKey now ts|r now ts]; simpl.
      - eexists. split; [reflexivity|]. simpl. auto.
      - rewrite S. eauto.
      - rewrite S.
        destruct (jsstring_eqb key (js "Enter") && negb shiftKey); eauto.
      - discriminate. }
    rewrite E. specialize (IH st1 L1 N).
    destruct (run st1 es) as [st2 eff2]. simpl in *.
    destruct IH as (A & B & C). rewrite B, M1. auto.
Qed.

(** C6, amended: when the call fails, the client has issued exactly one
    request and no retry, and fails closed to the fixed error message once
    the call settles; the client sets no timeout of its own, so that until
    the call settles the loading state stays set and nothing is appended. *)
Theorem failed_call_single_request (env : Env) (st : AppState) :
  guard st = false ->
  fetch_failed (network env (chat_request (inputValue st))) = true ->
  fetches (snd (handleSendMessage env st)) = [chat_request (inputValue st)]
  /\ retries (snd (handleSendMessage env st)) = 0%nat
  /\ last (messages (fst (handleSendMessage env st)))
          (errorMessage 0 0) = errorMessage (now1 env) (ts1 env)
  /\ isLoading (fst (handleSendMessage env st)) = false
  /\ (forall es,
        existsb is_settle es = false ->
        let pending := fst (send (now0 env) (ts0 env) st) in
        isLoading (fst (run pending es)) = true
        /\ messages (fst (run pending es)) = messages pending
        /\ snd (run pending es) = []).
Proof.
  intros G F. rewrite (failed_call env st G F).
  repeat split; try reflexivity.
  - simpl. apply last_last.
  - unfold send. rewrite (begin_passes _ _ _ G). simpl.
    apply pending_until_settled; [reflexivity | assumption].
  - unfold send. rewrite (begin_passes _ _ _ G). simpl.
    apply pending_until_settled; [reflexivity | assumption].
  - unfold send. rewrite (begin_passes _ _ _ G). simpl.
    apply pending_until_settled; [reflexivity | assumption].
Qed.

Lemma failed_call_single_request_witness :
  guard (typed "hi") = false
  /\ fetch_failed (network offline (chat_request (inputValue (typed "hi"))))
     = true
  /\ retries (snd (handleSendMessage offline (typed "hi"))) = 0%nat.
Proof.
  split; [reflexivity|]. split; [reflexivity|].
  apply (failed_call_single_request offline (typed "hi")); reflexivity.
Defined.

(** ** The message history *)

Lemma step_appends (st : AppState) (e : Event) :
  exists appended,
    messages (fst (step st e)) = messages st ++ appended.
Proof.
  assert (S : forall now ts,
             exists appended,
               messages (fst (send now ts st)) = messages st ++ appended).
  { intros. unfold send, handleSendMessage_begin.
    destruct (guard st); simpl.
    - exists []. symmetry. apply app_nil_r.
    - eexists. reflexivity. }
  destruct e as [v|now ts|key shiftKey now ts|r now ts]; simpl.
  - exists []. symmetry. apply app_nil_r.
  - apply S.
  - destruct (jsstring_eqb key (js "Enter") && negb shiftKey); [apply S|].
    exists []. symmetry. apply app_nil_r.
  - unfold handleSendMessage_settle.
    destruct (try_block r now ts); simpl; eexists; reflexivity.
Qed.

(** C8: the message history is append-only.  Whatever events the component
    handles (input changes, sends from the button or the keyboard, calls that
    settle with an answer or with an error), the messages it started from are
    still there, unchanged and in place, followed by the appended ones. *)
Theorem messages_append_only (st : AppState) (es : list Event) :
  exists appended,
    messages (fst (run st es)) = messages st ++ appended.
Proof.
  revert st. induction es as [|e es IH]; intro st; simpl.
  - exists []. symmetry. apply app_nil_r.
  - destruct (step_appends st e) as [a1 H1].
    destruct (step st e) as [st1 eff1]. simpl in H1.
    destruct (IH st1) as [a2 H2].
    destruct (run st1 es) as [st2 eff2]. simpl in *.
    exists (a1 ++ a2). rewrite H2, H1. symmetry. apply app_assoc.
Qed.

(** ** Empty retrieval *)

(** C7: when retrieval returns the empty sequence, the confidence is exactly
    0 and the fallback state is REFUSE, by the policy function and by the
    rules (REFUSE being the only state they allow, the low threshold being
    positive); the answer carries the measured confidence 0 and no sources,
    and no prompt goes to the completion service. *)
Theorem empty_retrieval_refused (low_threshold high_threshold : Q)
    (combine : list Q -> Q)
    (build_prompt :
       jsstring -> list Pipeline.RetrievedPassage ->
       Pipeline.FallbackState -> jsstring)
    (complete : jsstring -> jsstring) (refusal_text query : jsstring)
    (t : Pipeline.Topic) :
  0 < low_threshold ->
  Pipeline.score combine [] = 0
  /\ Pipeline.fallback_policy low_threshold high_threshold
       (Pipeline.score combine []) (Pipeline.is_empty []) t = Pipeline.REFUSE
  /\ Pipeline.transition low_threshold high_threshold
       (Pipeline.score combine []) [] t Pipeline.REFUSE
  /\ (forall s,
        Pipeline.transition low_threshold high_threshold
          (Pipeline.score combine []) [] t s -> s = Pipeline.REFUSE)
  /\ Pipeline.answer_query low_threshold high_threshold combine build_prompt
       complete refusal_text query t []
     = ({| Pipeline.response_text := refusal_text;
           Pipeline.confidence := 0;
           Pipeline.answer_sources := [];
           Pipeline.topic_detected := t |}, []).
Proof.
  intro Hlow.
  assert (P : Pipeline.fallback_policy low_threshold high_threshold
                (Pipeline.score combine []) (Pipeline.is_empty []) t
              = Pipeline.REFUSE).
  { unfold Pipeline.fallback_policy. simpl.
    rewrite orb_true_r. reflexivity. }
  repeat split.
  - exact P.
  - apply Pipeline.to_refuse. right. left. reflexivity.
  - intros s H. inversion H as [Hh Hne | Hl Hh | Hr]; subst.
    + congruence.
    + simpl in Hl. lra.
    + reflexivity.
  - unfold Pipeline.answer_query. rewrite P. reflexivity.
Qed.

Lemma empty_retrieval_refused_witness :
  0 < 4 # 10
  /\ Pipeline.fallback_policy (4 # 10) (75 # 100)
       (Pipeline.score (fun _ => 1) []) (Pipeline.is_empty [])
       Pipeline.funding = Pipeline.REFUSE.
Proof.
  split; [reflexivity|].
  exact (proj1 (proj2
           (@empty_retrieval_refused (4 # 10) (75 # 100)
              (fun _ => 1) (fun q _ _ => q) (fun p => p) (js "Sorry.")
              (js "How do I get funding?") Pipeline.funding eq_refl))).
Defined.

(** * Further properties of the component *)

(** ** When a message can be sent *)

Lemma non_blank_negb_forallb (s : jsstring) :
  non_blank s = negb (forallb is_white_space s).
Proof.
  unfold non_blank. induction s as [|c r IH]; simpl; [reflexivity|].
  rewrite IH. destruct (is_white_space c); reflexivity.
Qed.

Lemma truthy_trim_non_blank (s : jsstring) :
  truthy_string (trim s) = non_blank s.
Proof.
  rewrite non_blank_negb_forallb.
  destruct (forallb is_white_space s) eqn:E.
  - apply trim_nil_iff in E. rewrite E. reflexivity.
  - destruct (trim s) eqn:T; [|reflexivity].
    apply trim_nil_iff in T. congruence.
Qed.

Lemma guard_false_iff (st : AppState) :
  guard st = false
  <-> isLoading st = false /\ non_blank (inputValue st) = true.
Proof.
  unfold guard. rewrite truthy_trim_non_blank, orb_false_iff, negb_false_iff.
  tauto.
Qed.

(** X1: The send button is enabled exactly when no call is pending and the input
    holds at least one code unit that is not white space; surrounding white
    space does not matter. *)
Theorem send_enabled_iff (st : AppState) :
  send_disabled st = false
  <-> isLoading st = false
      /\ exists before c after,
           inputValue st = before ++ c :: after
           /\ is_white_space c = false.
Proof.
  unfold send_disabled. rewrite guard_false_iff. unfold non_blank.
  rewrite existsb_exists.
  split; intros [L H]; split; try exact L.
  - destruct H as (c & Hin & Hc). apply in_split in Hin.
    destruct Hin as (before & after & E).
    exists before, c, after. split; [exact E|].
    apply negb_true_iff. exact Hc.
  - destruct H as (before & c & after & E & Hc).
    exists c. split.
    + rewrite E. apply in_or_app. right. left. reflexivity.
    + rewrite Hc. reflexivity.
Qed.

Lemma send_result (now ts : Z) (st : AppState) :
  send now ts st
  = if guard st then (st, [])
    else ({| messages := messages st ++ [userMessage now ts (inputValue st)];
             inputValue := [];
             isLoading := true |},
          [Fetch (chat_request (inputValue st))]).
Proof.
  unfold send, handleSendMessage_begin. destruct (guard st); reflexivity.
Qed.

Lemma step_send_event (st : AppState) (e : Event) :
  is_send_event e = true ->
  step st e = send (event_now e) (event_ts e) st.
Proof.
  destruct e as [v|now ts|key shiftKey now ts|r now ts]; simpl;
    try discriminate; try reflexivity.
  intros ->. reflexivity.
Qed.

Lemma step_no_fetch (st : AppState) (e : Event) :
  is_send_event e = false -> fetches (snd (step st e)) = [].
Proof.
  destruct e as [v|now ts|key shiftKey now ts|r now ts]; simpl;
    try discriminate; try reflexivity.
  - intros ->. reflexivity.
  - intros _. unfold handleSendMessage_settle.
    destruct (try_block r now ts); reflexivity.
Qed.

(** X2: An event makes the component issue a request exactly when it is a click
    on the send button or Enter without Shift, no call is pending and the
    input is not blank.  The component then issues one request, which carries
    the input as typed, appends the user's message with that text, empties
    the input and sets the loading state.  Every other event issues
    nothing, and changes the history only if it is the settling of a
    call. *)
Theorem step_requests_iff (st : AppState) (e : Event) :
  (fetches (snd (step st e)) <> []
   <-> is_send_event e = true /\ isLoading st = false
       /\ non_blank (inputValue st) = true)
  /\ (fetches (snd (step st e)) <> [] ->
      step st e
      = ({| messages :=
              messages st
              ++ [userMessage (event_now e) (event_ts e) (inputValue st)];
            inputValue := [];
            isLoading := true |},
         [Fetch (chat_request (inputValue st))]))
  /\ (fetches (snd (step st e)) = [] ->
      messages (fst (step st e)) = messages st
      \/ is_settle e = true).
Proof.
  destruct (is_send_event e) eqn:S.
  - rewrite (step_send_event st e S), send_result.
    destruct (guard st) eqn:G; simpl.
    + repeat split; try congruence.
      * intros (_ & L & B).
        pose proof (proj2 (guard_false_iff st) (conj L B)). congruence.
      * intros _. left. reflexivity.
    + apply guard_false_iff in G. destruct G as [L B].
      repeat split; try assumption; try discriminate.
  - pose proof (step_no_fetch st e S) as F. rewrite F.
    repeat split; try congruence.
    + intros (C & _). discriminate.
    + intros _.
      destruct e as [v|now ts|key shiftKey now ts|r now ts]; simpl in *;
        try discriminate; auto.
      rewrite S. left. reflexivity.
Qed.

(** ** Requests and user messages *)

Lemma user_inputs_app (a b : list Message) :
  user_inputs (a ++ b) = user_inputs a ++ user_inputs b.
Proof. unfold user_inputs. apply flat_map_app. Qed.

Lemma step_user_inputs (st : AppState) (e : Event) :
  List.map chat_request (user_inputs (messages (fst (step st e))))
  = List.map chat_request (user_inputs (messages st))
    ++ fetches (snd (step st e)).
Proof.
  destruct (is_send_event e) eqn:S.
  - rewrite (step_send_event st e S), send_result.
    destruct (guard st); simpl.
    + symmetry. apply app_nil_r.
    + rewrite user_inputs_app, map_app. reflexivity.
  - rewrite (step_no_fetch st e S), app_nil_r.
    destruct e as [v|now ts|key shiftKey now ts|r now ts]; simpl in *;
      try discriminate; try reflexivity.
    + rewrite S. reflexivity.
    + unfold handleSendMessage_settle.
      destruct (try_block r now ts) as [m|] eqn:T; simpl;
        rewrite user_inputs_app; simpl.
      * destruct r as [|[|] [| |response srcs]]; simpl in T; try discriminate.
        injection T as <-. simpl. rewrite app_nil_r. reflexivity.
      * rewrite app_nil_r. reflexivity.
Qed.

(** X3: In every run, the requests issued are those of the user's messages
    appended to the history, one request per message, in the same order and
    with the message's text. *)
Theorem requests_match_user_messages (st : AppState) (es : list Event) :
  List.map chat_request (user_inputs (messages (fst (run st es))))
  = List.map chat_request (user_inputs (messages st))
    ++ fetches (snd (run st es)).
Proof.
  revert st. induction es as [|e es IH]; intro st; simpl.
  - symmetry. apply app_nil_r.
  - pose proof (step_user_inputs st e) as H1.
    destruct (step st e) as [st1 eff1]. specialize (IH st1).
    destruct (run st1 es) as [st2 eff2]. simpl in *.
    rewrite IH, H1, fetches_app. symmetry. apply app_assoc.
Qed.

(** ** Runs the browser can produce *)

Lemma step_balance (st : AppState) (e : Event) :
  (if is_settle e then isLoading st else true) = true ->
  (loading_count st + List.length (fetches (snd (step st e)))
   = (if is_settle e then 1 else 0) + loading_count (fst (step st e)))%nat.
Proof.
  unfold loading_count.
  destruct (is_send_event e) eqn:S.
  - rewrite (step_send_event st e S), send_result.
    assert (N : is_settle e = false) by (destruct e; try reflexivity; discriminate).
    rewrite N. intros _.
    destruct (guard st) eqn:G; simpl; [lia|].
    apply guard_false_iff in G. destruct G as [-> _]. reflexivity.
  - rewrite (step_no_fetch st e S).
    destruct e as [v|now ts|key shiftKey now ts|r now ts]; simpl in *;
      try discriminate.
    + intros _. lia.
    + rewrite S. intros _. simpl. lia.
    + intros ->. unfold handleSendMessage_settle.
      destruct (try_block r now ts); reflexivity.
Qed.

(** X4: At most one call is in flight.  In a run the browser can produce, the
    calls pending at the start plus the requests issued equal the calls that
    settled plus the call pending at the end, which is one while the
    component is loading and none otherwise. *)
Theorem one_call_in_flight (st : AppState) (es : list Event) :
  feasible st es = true ->
  (loading_count st + List.length (fetches (snd (run st es)))
   = settled es + loading_count (fst (run st es)))%nat.
Proof.
  revert st. induction es as [|e es IH]; intros st F; simpl.
  - unfold settled. simpl. lia.
  - simpl in F. apply andb_true_iff in F. destruct F as [Fe F].
    pose proof (step_balance st e Fe) as B.
    destruct (step st e) as [st1 eff1]. simpl in F, B.
    specialize (IH st1 F). destruct (run st1 es) as [st2 eff2].
    simpl in *. rewrite fetches_app, length_app.
    unfold settled in *. simpl.
    destruct (is_settle e); simpl in *; lia.
Qed.

Lemma one_call_in_flight_witness :
  feasible (typed "hi")
    [SendClicked 10 10; SendClicked 11 11; FetchSettled Rejected 20 20] = true
  /\ List.length
       (fetches
          (snd (run (typed "hi")
                  [SendClicked 10 10; SendClicked 11 11;
                   FetchSettled Rejected 20 20]))) = 1%nat.
Proof.
  split; [reflexivity|].
  pose proof (one_call_in_flight (typed "hi")
                [SendClicked 10 10; SendClicked 11 11;
                 FetchSettled Rejected 20 20] eq_refl) as H.
  exact H.
Defined.

Lemma alternating_snoc (first : Sender) (n : nat) :
  alternating first (S n)
  = alternating first n
    ++ [if Nat.even n then first
        else match first with user => bot | bot => user end].
Proof.
  revert first. induction n as [|n IH]; intro first; [reflexivity|].
  change (alternating first (S (S n)))
    with (first :: alternating (match first with user => bot | bot => user end)
                     (S n)).
  rewrite IH. simpl alternating. rewrite <- app_comm_cons. f_equal. f_equal.
  rewrite Nat.even_succ, <- Nat.negb_even.
  destruct (Nat.even n), first; reflexivity.
Qed.

Lemma in_turn_snoc (st : AppState) (m : Message) (input : jsstring) :
  in_turn st ->
  sender m = (if isLoading st then bot else user) ->
  in_turn {| messages := messages st ++ [m]; inputValue := input;
             isLoading := negb (isLoading st) |}.
Proof.
  intros (A & P & N) Hm. unfold in_turn. cbn [messages isLoading].
  rewrite map_app, length_app, Nat.add_1_r, alternating_snoc, <- A.
  cbn [List.map].
  rewrite Hm, P, Nat.even_succ, <- Nat.negb_even.
  split; [reflexivity|]. split; [reflexivity|].
  intro C. apply app_eq_nil in C. destruct C. discriminate.
Qed.

Lemma step_in_turn (st : AppState) (e : Event) :
  in_turn st ->
  (if is_settle e then isLoading st else true) = true ->
  in_turn (fst (step st e)).
Proof.
  intros I F.
  assert (S : forall now ts, in_turn (fst (send now ts st))).
  { intros. rewrite send_result. destruct (guard st) eqn:G; simpl; [exact I|].
    apply guard_false_iff in G. destruct G as [L _].
    pose proof (in_turn_snoc (userMessage now ts (inputValue st)) [] I) as H.
    rewrite L in H. apply H. reflexivity. }
  destruct e as [v|now ts|key shiftKey now ts|r now ts]; simpl in *.
  - exact I.
  - apply S.
  - destruct (jsstring_eqb key (js "Enter") && negb shiftKey);
      [apply S | exact I].
  - unfold handleSendMessage_settle.
    assert (H : forall m, sender m = bot ->
              in_turn {| messages := messages st ++ [m];
                         inputValue := inputValue st; isLoading := false |}).
    { intros m Hm.
      pose proof (in_turn_snoc m (inputValue st) I) as H.
      rewrite F in H. apply H. exact Hm. }
    destruct (try_block r now ts) as [m|] eqn:T; simpl.
    + apply H.
      destruct r as [|[|] [| |response srcs]]; simpl in T; try discriminate.
      injection T as <-. reflexivity.
    + apply H. reflexivity.
Qed.

Lemma run_in_turn (st : AppState) (es : list Event) :
  in_turn st -> feasible st es = true -> in_turn (fst (run st es)).
Proof.
  revert st. induction es as [|e es IH]; intros st I F; simpl; [exact I|].
  simpl in F. apply andb_true_iff in F. destruct F as [Fe F].
  pose proof (step_in_turn e I Fe) as I1.
  destruct (step st e) as [st1 eff1]. simpl in *.
  specialize (IH st1 I1 F). destruct (run st1 es) as [st2 eff2]. exact IH.
Qed.

(** X5: From the initial state, in every run the browser can produce, the history
    alternates: the greeting, then a user message, its reply (an answer or
    the error message), the next user message, and so on.  The typing
    indicator is on exactly when the last message is the user's, still
    unanswered. *)
Theorem history_alternates (ts : Z) (es : list Event) :
  feasible (initial_state ts) es = true ->
  let st := fst (run (initial_state ts) es) in
  List.map sender (messages st) = alternating bot (List.length (messages st))
  /\ (typing_indicator st = true
      <-> exists earlier m,
            messages st = earlier ++ [m] /\ sender m = user)
  /\ (typing_indicator st = false
      <-> exists earlier m,
            messages st = earlier ++ [m] /\ sender m = bot).
Proof.
  intros F st. unfold typing_indicator.
  assert (I0 : in_turn (initial_state ts))
    by (repeat split; discriminate).
  destruct (run_in_turn es I0 F) as (A & P & N).
  fold st in A, P, N.
  split; [exact A|].
  destruct (exists_last N) as (earlier & m & E).
  assert (Hm : sender m = if isLoading st then user else bot).
  { rewrite E in A. rewrite map_app, length_app, Nat.add_1_r in A.
    rewrite alternating_snoc in A. apply app_inj_tail in A.
    destruct A as [_ A]. rewrite A, P, E, length_app, Nat.add_1_r.
    rewrite Nat.even_succ, <- Nat.negb_even.
    destruct (Nat.even (List.length earlier)); reflexivity. }
  split; split.
  - intro L. exists earlier, m. rewrite L in Hm. auto.
  - intros (e' & m' & E' & S'). rewrite E in E'.
    apply app_inj_tail in E'. destruct E' as [_ <-].
    destruct (isLoading st); [reflexivity | congruence].
  - intro L. exists earlier, m. rewrite L in Hm. auto.
  - intros (e' & m' & E' & S'). rewrite E in E'.
    apply app_inj_tail in E'. destruct E' as [_ <-].
    destruct (isLoading st); [congruence | reflexivity].
Qed.

Lemma history_alternates_witness :
  feasible (initial_state 0)
    [Change (js "hi"); SendClicked 10 10;
     FetchSettled (Responded true (BodyData (Val (js "Hello")) Undefined)) 20 20]
  = true
  /\ List.map sender
       (messages
          (fst (run (initial_state 0)
                  [Change (js "hi"); SendClicked 10 10;
                   FetchSettled
                     (Responded true (BodyData (Val (js "Hello")) Undefined))
                     20 20])))
     = [bot; user; bot].
Proof.
  split; [reflexivity|].
  exact (proj1 (history_alternates 0
                  [Change (js "hi"); SendClicked 10 10;
                   FetchSettled
                     (Responded true (BodyData (Val (js "Hello")) Undefined))
                     20 20] eq_refl)).
Defined.

(** ** The outcomes of a call *)

Lemma whole_call (env : Env) (st : AppState) :
  guard st = false ->
  handleSendMessage env st
  = (let (st2, effs) :=
       handleSendMessage_settle
         (network env (chat_request (inputValue st))) (now1 env) (ts1 env)
         {| messages :=
              messages st ++ [userMessage (now0 env) (ts0 env) (inputValue st)];
            inputValue := [];
            isLoading := true |} in
     (st2, Fetch (chat_request (inputValue st)) :: effs)).
Proof.
  intro G. unfold handleSendMessage. rewrite (begin_passes _ _ _ G).
  reflexivity.
Qed.

(** X6: An OK response whose body cannot be parsed as JSON, or parses to [null],
    ends like a failed call: the error message follows the user's message,
    the error is logged, and the loading state is cleared. *)
Theorem unreadable_body_shows_error (env : Env) (st : AppState) (b : Body) :
  guard st = false ->
  network env (chat_request (inputValue st)) = Responded true b ->
  b = BodyInvalid \/ b = BodyNull ->
  handleSendMessage env st
  = ({| messages :=
          messages st ++ [userMessage (now0 env) (ts0 env) (inputValue st);
                          errorMessage (now1 env) (ts1 env)];
        inputValue := [];
        isLoading := false |},
     [Fetch (chat_request (inputValue st)); ConsoleError]).
Proof.
  intros G R B. rewrite (whole_call env st G), R.
  unfold handleSendMessage_settle.
  destruct B as [-> | ->]; simpl; rewrite <- app_assoc; reflexivity.
Qed.

Lemma unreadable_body_shows_error_witness :
  guard (typed "hi") = false
  /\ List.map text (messages (fst (handleSendMessage garbled (typed "hi"))))
     = List.map text (initial_messages 0)
       ++ [Val (js "hi"); Val error_text].
Proof.
  split; [reflexivity|].
  rewrite (unreadable_body_shows_error garbled (typed "hi") (b := BodyInvalid)
             eq_refl eq_refl (or_introl eq_refl)).
  reflexivity.
Defined.

(** X7: An answered call: the user's message is followed by one bot message with
    the text of the response; nothing is logged and the loading state is
    cleared.  The answer shows at most 3 source lines, as many as the response
    lists up to that, and no block of sources at all when the response has no
    [sources], a [null] one or an empty list. *)
Theorem answered_call (env : Env) (st : AppState)
    (response : field jsstring) (srcs : field (list Source)) :
  guard st = false ->
  network env (chat_request (inputValue st))
  = Responded true (BodyData response srcs) ->
  let reply := botMessage (now1 env) (ts1 env) response srcs in
  handleSendMessage env st
  = ({| messages :=
          messages st ++ [userMessage (now0 env) (ts0 env) (inputValue st);
                          reply];
        inputValue := [];
        isLoading := false |},
     [Fetch (chat_request (inputValue st))])
  /\ text reply = response
  /\ List.length (render_sources reply)
     = Nat.min 3 (List.length (sources_or_empty srcs))
  /\ (sources_block reply = false
      <-> srcs = Undefined \/ srcs = Null \/ srcs = Val []).
Proof.
  intros G R reply. rewrite (whole_call env st G), R.
  unfold handleSendMessage_settle. simpl.
  rewrite <- app_assoc. repeat split.
  - unfold render_sources, shown_sources, reply, botMessage.
    cbn [sender sources]. rewrite length_map.
    destruct (0 <? List.length (sources_or_empty srcs))%nat eqn:E.
    + unfold slice0. apply length_firstn.
    + apply Nat.ltb_ge in E.
      assert (Z0 : List.length (sources_or_empty srcs) = 0%nat) by lia.
      rewrite Z0. reflexivity.
  - unfold sources_block, reply, botMessage. cbn [sender sources].
    destruct srcs as [| |[|s l]]; simpl; auto; discriminate.
  - unfold sources_block, reply, botMessage. cbn [sender sources].
    intros [-> | [-> | ->]]; reflexivity.
Qed.

Lemma answered_call_witness :
  guard (typed "What is Startup India?") = false
  /\ List.length
       (render_sources
          (botMessage 2000 2000 (Val (js "Startup India is an initiative."))
             (Val four_sources))) = 3%nat.
Proof.
  split; [reflexivity|].
  exact (proj1 (proj2 (proj2
           (answered_call answering (typed "What is Startup India?")
              (response := Val (js "Startup India is an initiative."))
              (srcs := Val four_sources) eq_refl eq_refl)))).
Defined.

(** X8: While a call is pending, what else happens does not change the exchange:
    after any input changes and further attempts to send, the settling of the
    call leaves the same messages and the same request as the call run on its
    own. *)
Theorem exchange_unaffected_by_waiting (env : Env) (st : AppState)
    (es : list Event) :
  guard st = false ->
  existsb is_settle es = false ->
  let r := network env (chat_request (inputValue st)) in
  let trace :=
    SendClicked (now0 env) (ts0 env) :: es
    ++ [FetchSettled r (now1 env) (ts1 env)] in
  messages (fst (run st trace)) = messages (fst (handleSendMessage env st))
  /\ isLoading (fst (run st trace)) = false
  /\ snd (run st trace) = snd (handleSendMessage env st).
Proof.
  intros G N r trace. rewrite (whole_call env st G). fold r.
  unfold trace. simpl run. rewrite send_result, G.
  set (st1 := {| messages := messages st ++ _; inputValue := [];
                 isLoading := true |}).
  assert (R : forall st0 a b,
             run st0 (a ++ b)
             = (let (s1, e1) := run st0 a in
                let (s2, e2) := run s1 b in (s2, e1 ++ e2))).
  { intros st0 a. revert st0. induction a as [|x a IH]; intros st0 b; simpl.
    - destruct (run st0 b); reflexivity.
    - destruct (step st0 x) as [sx ex]. rewrite IH.
      destruct (run sx a) as [s1 e1]. destruct (run s1 b) as [s2 e2].
      rewrite app_assoc. reflexivity. }
  rewrite R.
  destruct (pending_until_settled es st1 eq_refl N) as (L & M & E).
  destruct (run st1 es) as [s1 e1]. simpl in L, M, E. subst e1.
  simpl run. unfold handleSendMessage_settle.
  destruct (try_block r (now1 env) (ts1 env)) as [m|]; simpl;
    rewrite M; repeat split.
Qed.

Lemma exchange_unaffected_by_waiting_witness :
  guard (typed "hi") = false
  /\ isLoading
       (fst (run (typed "hi")
               (SendClicked 1000 1000
                :: [Change (js "more"); SendClicked 1500 1500]
                ++ [FetchSettled Rejected 2000 2000]))) = false.
Proof.
  split; [reflexivity|].
  exact (proj1 (proj2
           (exchange_unaffected_by_waiting offline (typed "hi")
              [Change (js "more"); SendClicked 1500 1500]
              eq_refl eq_refl))).
Defined.

(** ** The label and the percentage of a source *)

(** X9: The label of a source is never empty and never longer than 43 code units.
    A title of at most 40 code units is shown as it is, a longer one as its
    first 40 code units followed by "..."; the empty title is shown as
    "Unknown", and a source without a title, or with a [null] one, as
    "undefined". *)
Theorem display_title_cases (s : Source) :
  display_title s <> []
  /\ (List.length (display_title s) <= 43)%nat
  /\ (forall t, title s = Val t -> t <> [] -> (List.length t <= 40)%nat ->
        display_title s = t)
  /\ (forall t, title s = Val t -> (40 < List.length t)%nat ->
        display_title s = firstn 40 t ++ js "...")
  /\ (title s = Val [] -> display_title s = js "Unknown")
  /\ (title s = Undefined \/ title s = Null ->
        display_title s = js "undefined").
Proof.
  unfold display_title.
  destruct (title s) as [| |t] eqn:T.
  - repeat split; try discriminate; simpl; lia.
  - repeat split; try discriminate; simpl; lia.
  - destruct (40 <? List.length t)%nat eqn:E.
    + apply Nat.ltb_lt in E.
      assert (F : firstn 40 t ++ js "..." <> []).
      { intro C. apply app_eq_nil in C. destruct C. discriminate. }
      assert (Tr : truthy_string (firstn 40 t ++ js "...") = true)
        by (destruct (firstn 40 t ++ js "...") eqn:X;
            [exfalso; apply F; reflexivity | reflexivity]).
      rewrite Tr. repeat split.
      * exact F.
      * rewrite length_app, length_firstn.
        change (List.length (js "...")) with 3%nat. lia.
      * intros t' [= <-] _ H. lia.
      * intros t' [= <-] _. reflexivity.
      * intros [= ->]. simpl in E. lia.
      * intros [C | C]; discriminate.
    + apply Nat.ltb_ge in E. rewrite app_nil_r.
      rewrite (firstn_all2 (n := 40) t E).
      destruct t as [|c t]; simpl.
      * repeat split; try discriminate; try (simpl; lia).
        -- intros t' [= <-] C. congruence.
        -- intros t' [= <-] C. simpl in C. lia.
        -- intros [C | C]; discriminate.
      * repeat split; try discriminate; try (simpl in *; lia).
        -- intros t' [= <-] _ _. reflexivity.
        -- intros t' [= <-] C. simpl in *. lia.
        -- intros [C | C]; discriminate.
Qed.

Lemma decimal_number (x : Q) :
  0 <= x -> x <= 100 # 1 ->
  exists n : N,
    toFixed0 (Num x) = decimal n
    /\ (n <= 100)%N
    /\ Qabs (x - inject_Z (Z.of_N n)) <= 1 # 2.
Proof.
  intros H0 H100.
  assert (A : Qabs x == x) by (apply Qabs_pos; exact H0).
  set (z := Qfloor (Qabs x + (1 # 2))).
  assert (Lo : inject_Z z <= x + (1 # 2)).
  { unfold z. rewrite <- A at 2. apply Qfloor_le. }
  assert (Hi : x + (1 # 2) < inject_Z (z + 1)).
  { unfold z. rewrite <- A at 1. apply Qlt_floor. }
  assert (Zlo : (0 <= z)%Z).
  { change 0%Z with (Qfloor 0). unfold z. apply Qfloor_resp_le. lra. }
  assert (Zhi : (z <= 100)%Z).
  { change 100%Z with (Qfloor ((100 # 1) + (1 # 2))). unfold z.
    apply Qfloor_resp_le. lra. }
  exists (Z.to_N z). repeat split.
  - unfold toFixed0.
    assert (B : Qle_bool (inject_Z (10 ^ 21)) (Qabs x) = false).
    { destruct (Qle_bool (inject_Z (10 ^ 21)) (Qabs x)) eqn:E;
        [|reflexivity].
      apply Qle_bool_iff in E.
      change (inject_Z (10 ^ 21)) with (1000000000000000000000 # 1) in E.
      lra. }
    rewrite B. fold z.
    rewrite (proj2 (Qle_bool_iff 0 x) H0). reflexivity.
  - lia.
  - rewrite Z2N.id by exact Zlo.
    rewrite inject_Z_plus in Hi. change (inject_Z 1) with 1 in Hi.
    apply Qabs_Qle_condition. split; lra.
Qed.

(** X10: For a source whose distance lies in [[0, 1]], the line shows a whole
    number between 0 and 100, without a sign, that differs from the
    similarity, the binary64 value the component holds, by at most one
    half. *)
Theorem percent_whole_number (s : Source) (d : Q) :
  distance s = Val d ->
  0 <= d <= 1 ->
  exists (n : N) (q : Q),
    similarity s = Num q
    /\ percent (renderSource s) = decimal n
    /\ (n <= 100)%N
    /\ Qabs (q - inject_Z (Z.of_N n)) <= 1 # 2.
Proof.
  intros D H.
  destruct (similarity_in_range s D H) as (q & E & H0 & H1).
  destruct (decimal_number H0 H1) as (n & T & Hn & Hq).
  exists n, q. unfold renderSource. cbn [percent]. rewrite E. auto.
Qed.

Lemma percent_whole_number_witness :
  distance (mkSource (Val (425 # 1000)) Undefined Undefined Undefined)
  = Val (425 # 1000)
  /\ 0 <= 425 # 1000 <= 1
  /\ exists (n : N) (q : Q),
       similarity (mkSource (Val (425 # 1000)) Undefined Undefined Undefined)
       = Num q
       /\ percent
            (renderSource
               (mkSource (Val (425 # 1000)) Undefined Undefined Undefined))
          = decimal n
       /\ (n <= 100)%N
       /\ Qabs (q - inject_Z (Z.of_N n)) <= 1 # 2.
Proof.
  split; [reflexivity|]. split; [split; discriminate|].
  apply (percent_whole_number
           (mkSource (Val (425 # 1000)) Undefined Undefined Undefined)
           (d := 425 # 1000)).
  - reflexivity.
  - split; discriminate.
Defined.

(** At distance 0.425 the component holds 57.49999999999999 and shows 57,
    where the exact value 57.5 would show 58. *)
Lemma percent_of_rounded_value :
  percent
    (renderSource (mkSource (Val (425 # 1000)) Undefined Undefined Undefined))
  = js "57"
  /\ toFixed0 (Num ((1 - (425 # 1000)) * 100)) = js "58".
Proof. split; reflexivity. Qed.

(** ** The quick suggestions *)

Lemma run_extends (st : AppState) (es : list Event) :
  exists appended, messages (fst (run st es)) = messages st ++ appended.
Proof.
  revert st. induction es as [|e es IH]; intro st; simpl.
  - exists []. symmetry. apply app_nil_r.
  - destruct (step_appends st e) as [a1 H1].
    destruct (step st e) as [st1 eff1]. simpl in H1.
    destruct (IH st1) as [a2 H2].
    destruct (run st1 es) as [st2 eff2]. simpl in *.
    exists (a1 ++ a2). rewrite H2, H1. symmetry. apply app_assoc.
Qed.

(** X11: The quick suggestions are on screen exactly until the first message is
    appended to the greeting, and once gone they do not come back. *)
Theorem suggestions_until_first_message (ts : Z) (es : list Event) :
  let st := fst (run (initial_state ts) es) in
  (show_suggestions st = true <-> messages st = initial_messages ts)
  /\ (forall more,
        show_suggestions st = false ->
        show_suggestions (fst (run st more)) = false).
Proof.
  intro st. destruct (run_extends (initial_state ts) es) as [a H].
  fold st in H. simpl in H. unfold show_suggestions. split.
  - rewrite H. simpl. split; intro E.
    + apply Nat.eqb_eq in E. destruct a; [reflexivity | discriminate].
    + injection E as ->. reflexivity.
  - intros more E. destruct (run_extends st more) as [b Hb].
    rewrite Hb, H, length_app in *. simpl in *.
    apply Nat.eqb_neq in E. apply Nat.eqb_neq. lia.
Qed.

(** X12: Each quick suggestion can be sent as it is: with no call pending, a click
    on the suggestion and then on the send button issues one request for
    exactly that text and appends it as the user's message. *)
Theorem suggestion_sends_itself (st : AppState) (s : jsstring) (now ts : Z) :
  In s suggestions ->
  isLoading st = false ->
  run st [Change s; SendClicked now ts]
  = ({| messages := messages st ++ [userMessage now ts s];
        inputValue := [];
        isLoading := true |},
     [Fetch (chat_request s)]).
Proof.
  intros Hin L.
  assert (G : guard {| messages := messages st; inputValue := s;
                       isLoading := isLoading st |} = false).
  { apply guard_false_iff. split; [exact L|]. simpl.
    simpl in Hin. destruct Hin as [<-|[<-|[<-|[<-|[]]]]]; reflexivity. }
  simpl run. rewrite send_result, G. reflexivity.
Qed.

Lemma suggestion_sends_itself_witness :
  In (js "Funding opportunities?") suggestions
  /\ isLoading (initial_state 0) = false
  /\ fetches
       (snd (run (initial_state 0)
               [Change (js "Funding opportunities?"); SendClicked 5 5]))
     = [chat_request (js "Funding opportunities?")].
Proof.
  split; [do 3 right; left; reflexivity|]. split; [reflexivity|].
  rewrite (suggestion_sends_itself (initial_state 0)
             (s := js "Funding opportunities?") 5 5
             (or_intror (or_intror (or_intror (or_introl eq_refl))))
             eq_refl).
  reflexivity.
Defined.

(** ** The keys of the messages *)

Lemma step_new_ids (st : AppState) (e : Event) :
  exists appended,
    messages (fst (step st e)) = messages st ++ appended
    /\ (List.length appended <= 1)%nat
    /\ (forall m, In m appended ->
          (event_now e <= id m <= event_now e + 1)%Z)
    /\ (is_settle e = false -> is_send_event e = false -> appended = []).
Proof.
  assert (Nil : forall now : Z,
             messages st = messages st ++ []
             /\ (List.length (@nil Message) <= 1)%nat
             /\ (forall m, In m [] -> (now <= id m <= now + 1)%Z)).
  { intro now. split; [symmetry; apply app_nil_r|].
    split; [simpl; lia|]. intros m []. }
  assert (One : forall (now : Z) (m : Message),
             (now <= id m <= now + 1)%Z ->
             messages st ++ [m] = messages st ++ [m]
             /\ (List.length [m] <= 1)%nat
             /\ (forall m', In m' [m] -> (now <= id m' <= now + 1)%Z)).
  { intros now m Hm. split; [reflexivity|]. split; [simpl; lia|].
    intros m' [<- | []]. exact Hm. }
  assert (S : forall now ts,
             exists appended,
               messages (fst (send now ts st)) = messages st ++ appended
               /\ (List.length appended <= 1)%nat
               /\ (forall m, In m appended -> (now <= id m <= now + 1)%Z)).
  { intros. rewrite send_result. destruct (guard st); simpl.
    - exists []. apply Nil.
    - eexists. apply One. simpl. lia. }
  destruct e as [v|now ts|key shiftKey now ts|r now ts]; simpl.
  - exists []. destruct (Nil 0%Z) as (A & B & C). auto.
  - destruct (S now ts) as (a & A & B & C). exists a.
    repeat (split; [assumption|]). discriminate.
  - destruct (jsstring_eqb key (js "Enter") && negb shiftKey).
    + destruct (S now ts) as (a & A & B & C). exists a.
      repeat (split; [assumption|]). discriminate.
    + exists []. destruct (Nil now) as (A & B & C). auto.
  - unfold handleSendMessage_settle.
    destruct (try_block r now ts) as [m|] eqn:T; simpl.
    + exists [m].
      assert (Hm : (now <= id m <= now + 1)%Z).
      { destruct r as [|[|] [| |response srcs]]; simpl in T; try discriminate.
        injection T as <-. simpl. lia. }
      destruct (One now m Hm) as (A & B & C).
      repeat (split; [assumption|]). discriminate.
    + exists [errorMessage now ts].
      assert (Hm : (now <= id (errorMessage now ts) <= now + 1)%Z)
        by (simpl; lia).
      destruct (One now _ Hm) as (A & B & C).
      repeat (split; [assumption|]). discriminate.
Qed.

Lemma NoDup_new_ids (old appended : list Message) (bound now : Z) :
  NoDup (List.map id old) ->
  (forall m, In m old -> (id m <= bound)%Z) ->
  (bound < now)%Z ->
  (List.length appended <= 1)%nat ->
  (forall m, In m appended -> (now <= id m <= now + 1)%Z) ->
  NoDup (List.map id (old ++ appended))
  /\ (forall m, In m (old ++ appended) -> (id m <= now + 1)%Z).
Proof.
  intros N B Lt L R. split.
  - rewrite map_app. apply NoDup_app; [exact N | |].
    + destruct appended as [|m [|m' a]]; simpl in *.
      * constructor.
      * constructor; [intros [] | constructor].
      * lia.
    + intros x Hx Hy. apply in_map_iff in Hx, Hy.
      destruct Hx as (m1 & <- & I1). destruct Hy as (m2 & E2 & I2).
      specialize (B m1 I1). specialize (R m2 I2). lia.
  - intros m Hm. apply in_app_or in Hm. destruct Hm as [Hm | Hm].
    + specialize (B m Hm). lia.
    + specialize (R m Hm). lia.
Qed.

Lemma run_keys (es : list Event) (st : AppState) (bound : Z) :
  NoDup (List.map id (messages st)) ->
  (forall m, In m (messages st) -> (id m <= bound)%Z) ->
  spaced bound es ->
  NoDup (List.map id (messages (fst (run st es)))).
Proof.
  revert st bound. induction es as [|e es IH]; intros st bound N B S.
  - exact N.
  - destruct (step_new_ids st e) as (a & H1 & H2 & H3 & H4).
    assert (K : exists bound',
               spaced bound' es
               /\ NoDup (List.map id (messages (fst (step st e))))
               /\ (forall m, In m (messages (fst (step st e))) ->
                     (id m <= bound')%Z)).
    { rewrite H1.
      destruct e as [v|now ts|key shiftKey now ts|r now ts];
        try (exists (now + 1)%Z; simpl in S; destruct S as [Lt S];
             split; [exact S|];
             apply (@NoDup_new_ids _ _ _ _ N B Lt H2 H3)).
      exists bound. rewrite (H4 eq_refl eq_refl), app_nil_r. auto. }
    destruct K as (bound' & S' & N' & B').
    simpl. destruct (step st e) as [st1 eff1]. simpl in *.
    specialize (IH st1 bound' N' B' S').
    destruct (run st1 es) as [st2 eff2]. exact IH.
Qed.

(** X13: The keys of the rendered messages, their ids, are pairwise distinct in
    every run from the initial state in which the clock readings are above 1
    and at least 2 milliseconds apart. *)
Theorem keys_distinct (ts : Z) (es : list Event) :
  spaced 1 es ->
  NoDup (List.map id (messages (fst (run (initial_state ts) es)))).
Proof.
  intro S. apply (run_keys es (initial_state ts) (bound := 1%Z)).
  - simpl. repeat constructor. simpl. tauto.
  - intros m [<- | []]. simpl. lia.
  - exact S.
Qed.

Lemma keys_distinct_witness :
  spaced 1 [Change (js "hi"); SendClicked 10 10;
            FetchSettled Rejected 20 20]
  /\ NoDup
       (List.map id
          (messages
             (fst (run (initial_state 0)
                     [Change (js "hi"); SendClicked 10 10;
                      FetchSettled Rejected 20 20])))).
Proof.
  split.
  - simpl. repeat split.
  - apply keys_distinct. simpl. repeat split.
Defined.

(** The spacing matters: a message sent in the millisecond after a reply
    gets the key of that reply. *)
Lemma keys_can_collide :
  List.map id
    (messages
       (fst (run (initial_state 0)
               [Change (js "a"); SendClicked 10 10;
                FetchSettled Rejected 20 20;
                Change (js "b"); SendClicked 21 21])))
  = [1; 10; 21; 21]%Z.
Proof. reflexivity. Qed.
